(** * The [pub] reactive dispatch graph: nodes, fan-out and chain builders

    A shallow embedding of package [pub] (nodes built by [Sync]/[ASync],
    ingress through [Read], fan-out through [Write]/[WriteEvery],
    registration through [Signal]/[AsyncSignal], and the chain builders
    [Lift]/[DeLift]), together with the properties its specification
    states about it; then the tests that call the package, and the two
    console sinks of package [stdout].

    Nodes live in a heap addressed by pointers; every operation is a
    computation in a small monad that threads the heap, may panic (a nil
    dereference or an index out of range), may run out of fuel (fan-out
    over a cyclic graph never returns), and records the calls it makes in
    a call tree. *)

From stdpp Require Import base list strings.
From Stdlib Require Import ZArith Lia Ascii.

Local Open Scope Z_scope.
Local Open Scope nat_scope.

(** ** Values, contexts and handlers *)

(** A [*pub] pointer: the position of the node in the heap. *)
Abbreviation ptr := nat (only parsing).

(** The error values of Go ([errors.New msg]). *)
Abbreviation goerror := string (only parsing).

(** [context.Context]: the carrier, opaque to the engine.  [Background] is
    what [context.New()] returns. *)
Inductive carrier := Background | Carrier (k : nat).

(** [type contxt struct { ctx context.Context; rw ReadWriter }], the only
    implementation of the interface [Ctx]. *)
Record contxt := mkContxt { Ctx : carrier; RW : ptr }.

(** An [interface{}] payload.  [VError] is the only shape whose runtime
    type satisfies [error]; [VNil] is the nil interface. *)
Inductive value :=
| VNil
| VInt (z : Z)
| VStr (s : string)
| VInts (l : list Z)
| VError (e : goerror).

(** [err, ok := v.(error)] *)
Definition as_error (v : value) : option goerror :=
  match v with
  | VError e => Some e
  | _ => None
  end.

(** [type NthFinder func(index int, length int) (NewIndex int)] *)
Definition NthFinder := Z -> Z -> Z.

(** What a handler body does with the engine.  A handler reaches the engine
    through the [ReadWriter] surface ([Read], [Write], [WriteEvery]), none
    of which returns a result, so a body is the sequence of calls it makes;
    [CmdNote] stands for an effect of the body's own (a counter bumped, a
    value recorded), [CmdPanic] for a body that panics at that point. *)
Inductive cmd :=
| CmdWrite (target : ptr) (m : contxt) (v : value)
| CmdWriteEvery (target : ptr) (m : contxt) (v : value)
    (finder : option NthFinder)
| CmdRead (target : ptr) (v : value) (ctxs : list carrier)
| CmdNote (n : Z)
| CmdPanic.

(** [type Handler func(Ctx, error, interface{})] *)
Definition Handler := contxt -> option goerror -> value -> list cmd.

(** [type DataHandler func(Ctx, interface{})] *)
Definition DataHandler := contxt -> value -> list cmd.

(** [type ErrorHandler func(Ctx, error)] *)
Definition ErrorHandler := contxt -> option goerror -> list cmd.

(** [WrapData]: errors are passed forward through the node's own [Write],
    data goes to the wrapped handler. *)
Definition WrapData (dh : DataHandler) : Handler :=
  fun m err data =>
    match err with
    | Some e => [CmdWrite (RW m) m (VError e)]
    | None => dh m data
    end.

(** [WrapError]: with no error the wrapped handler is called with it,
    otherwise the payload is written out. *)
Definition WrapError (dh : ErrorHandler) : Handler :=
  fun m err data =>
    match err with
    | None => dh m err
    | Some _ => [CmdWrite (RW m) m data]
    end.

(** ** Nodes and the heap *)

(** [type pub struct].  The read-write mutex [rw] guards [subs]; in this
    sequential model every critical section runs as one step, so the lock
    has no field of its own. *)
Record pub := mkPub {
  uuid : nat;
  op : Handler;
  root : option ptr;
  async : bool;
  subs : list ptr
}.

(** The heap of nodes and the supply from which [uuid.NewV4()] draws. *)
Record state := mkState { heap : list pub; uuids : nat }.

(** ** The call tree *)

(** One call made by the engine or by a handler body.  [EPanic] is the
    panic of a handler body: the run stops there, so it is part of no call
    tree that is returned. *)
Inductive entry :=
| EOp (node : ptr) (m : contxt) (err : option goerror) (data : value)
| EGo (node : ptr) (m : contxt) (err : option goerror) (data : value)
| EWrite (node : ptr) (m : contxt) (v : value)
| EWriteEvery (node : ptr) (m : contxt) (v : value)
    (finder : option NthFinder)
| ERead (node : ptr) (v : value) (ctxs : list carrier)
| ENote (n : Z)
| EPrintf (s : string)
| EPanic.

#[local] Set Warnings "-register-all".

(** A call together with the calls made while it ran. *)
Inductive call := Call (what : entry) (inner : list call).

(** The call itself, without what happened inside it. *)
Definition top (c : call) : entry :=
  match c with Call e _ => e end.

(** Every call of the tree, outermost first. *)
Fixpoint entries (c : call) : list entry :=
  match c with
  | Call e inner => e :: flat_map entries inner
  end.

Definition all_entries (tr : list call) : list entry := flat_map entries tr.

(** A handler was invoked (inline or on a goroutine). *)
Definition is_handler_call (e : entry) : bool :=
  match e with
  | EOp _ _ _ _ | EGo _ _ _ _ => true
  | _ => false
  end.

(** ** The monad *)

Inductive outcome (A : Type) :=
| Ok (a : A) (tr : list call) (s : state)
| Panic (s : state)
| OutOfFuel.
Arguments Ok {A} a tr s.
Arguments Panic {A} s.
Arguments OutOfFuel {A}.

Definition M (A : Type) := state -> outcome A.

Definition ret {A} (a : A) : M A := fun s => Ok a [] s.

Definition bind {A B} (m : M A) (k : A -> M B) : M B :=
  fun s =>
    match m s with
    | Ok a tr s1 =>
        match k a s1 with
        | Ok b tr' s2 => Ok b (tr ++ tr') s2
        | Panic s2 => Panic s2
        | OutOfFuel => OutOfFuel
        end
    | Panic s1 => Panic s1
    | OutOfFuel => OutOfFuel
    end.

Notation "'let*' x ':=' m 'in' k" := (bind m (fun x => k))
  (at level 10, x name, m at level 99, k at level 200).
Notation "m ';;' k" := (bind m (fun _ => k))
  (at level 100, k at level 200, right associativity).

Definition panic {A} : M A := fun s => Panic s.
Definition out_of_fuel {A} : M A := fun _ => OutOfFuel.

(** Record a call that has no calls inside it. *)
Definition emit (e : entry) : M unit := fun s => Ok tt [Call e []] s.

(** Run [m] as the body of the call [e]. *)
Definition inside {A} (e : entry) (m : M A) : M A :=
  fun s =>
    match m s with
    | Ok a tr s' => Ok a [Call e tr] s'
    | Panic s' => Panic s'
    | OutOfFuel => OutOfFuel
    end.

(** Dereference a node pointer; a nil pointer panics. *)
Definition deref (p : ptr) : M pub :=
  fun s =>
    match heap s !! p with
    | Some node => Ok node [] s
    | None => Panic s
    end.

(** [l[i]] on a slice: out of range panics. *)
Definition index_at {A} (l : list A) (i : Z) : M A :=
  if (i <? 0)%Z then panic
  else match l !! Z.to_nat i with
       | Some x => ret x
       | None => panic
       end.

(** [for _, x := range l { body x }] *)
Fixpoint forM_ {A} (body : A -> M unit) (l : list A) : M unit :=
  match l with
  | [] => ret tt
  | x :: l' => body x ;; forM_ body l'
  end.

(** [for index := 0; index < n; index++ { body index }] *)
Definition for_up (n : nat) (body : Z -> M unit) : M unit :=
  forM_ body (Z.of_nat <$> seq 0 n).

(** [for index := n - 1; index >= 0; index-- { body index }] *)
Definition for_down (n : nat) (body : Z -> M unit) : M unit :=
  forM_ body (Z.of_nat <$> reverse (seq 0 n)).

(** ** Construction *)

(** Allocate a node and return its address. *)
Definition alloc (h : Handler) (is_async : bool) : M ptr :=
  fun s =>
    Ok (length (heap s)) []
       (mkState (heap s ++ [mkPub (uuids s) h None is_async []])
                (S (uuids s))).

Definition Sync (h : Handler) : M ptr := alloc h false.
Definition ASync (h : Handler) : M ptr := alloc h true.
Definition DSync (dh : DataHandler) : M ptr := alloc (WrapData dh) false.
Definition DASync (dh : DataHandler) : M ptr := alloc (WrapData dh) true.

(** [func (p *pub) UUID() string] *)
Definition UUID (p : ptr) : M nat := let* node := deref p in ret (uuid node).

(** ** Read, Write and WriteEvery *)

(** [func defaultFinder(index int, length int) int] *)
Definition defaultFinder : NthFinder := fun index _ => index.

(** One call of a handler body, given the three entry points. *)
Definition perform
    (rd : ptr -> value -> list carrier -> M unit)
    (wr : ptr -> contxt -> value -> M unit)
    (we : ptr -> contxt -> value -> option NthFinder -> M unit)
    (c : cmd) : M unit :=
  match c with
  | CmdWrite t m v => inside (EWrite t m v) (wr t m v)
  | CmdWriteEvery t m v f => inside (EWriteEvery t m v f) (we t m v f)
  | CmdRead t v ctxs => inside (ERead t v ctxs) (rd t v ctxs)
  | CmdNote n => emit (ENote n)
  | CmdPanic => panic
  end.

(** [func (p *pub) Write(ctx Ctx, v interface{})] *)
Fixpoint Write (fuel : nat) (p : ptr) (ctx : contxt) (v : value) : M unit :=
  match fuel with
  | O => out_of_fuel
  | S fuel' =>
      let ctxn := mkContxt (Ctx ctx) p in
      let* self := deref p in
      forM_ (fun node =>
               match as_error v with
               | Some err =>
                   inside (EWrite node ctxn (VError err))
                          (Write fuel' node ctxn (VError err))
               | None =>
                   inside (EWrite node ctxn v) (Write fuel' node ctxn v)
               end)
            (subs self)
  end.

(** [func (p *pub) WriteEvery(ctx Ctx, v interface{}, finder NthFinder)] *)
Definition WriteEvery (fuel : nat) (p : ptr) (ctx : contxt) (v : value)
    (finder : option NthFinder) : M unit :=
  match fuel with
  | O => out_of_fuel
  | S fuel' =>
      let ctxn := mkContxt (Ctx ctx) p in
      let finder := match finder with
                    | None => defaultFinder
                    | Some f => f
                    end in
      let* self := deref p in
      let nlen := length (subs self) in
      for_up nlen (fun index =>
        let newIndex := finder index (Z.of_nat nlen) in
        if (0 <? newIndex)%Z && (newIndex <? Z.of_nat nlen)%Z then
          let* node := index_at (subs self) index in
          match as_error v with
          | Some err =>
              inside (EWrite node ctxn (VError err))
                     (Write fuel' node ctxn (VError err))
          | None =>
              inside (EWrite node ctxn v) (Write fuel' node ctxn v)
          end
        else ret tt)
  end.

(** [func (p *pub) Read(b interface{}, ctxs ...context.Context)].  On an
    asynchronous node the handler is handed to a goroutine ([EGo]) and
    [Read] returns at once; what the goroutine does later is outside this
    sequential model. *)
Fixpoint Read (fuel : nat) (p : ptr) (b : value) (ctxs : list carrier)
    : M unit :=
  match fuel with
  | O => out_of_fuel
  | S fuel' =>
      let ctx := match ctxs with
                 | [] => Background
                 | c :: _ => c
                 end in
      let ctxn := mkContxt ctx p in
      let run := forM_ (perform (Read fuel') (Write fuel') (WriteEvery fuel')) in
      let* node := deref p in
      match as_error b with
      | Some err =>
          if async node then emit (EGo p ctxn (Some err) VNil)
          else inside (EOp p ctxn (Some err) VNil)
                      (run (op node ctxn (Some err) VNil))
      | None =>
          if async node then emit (EGo p ctxn None b)
          else inside (EOp p ctxn None b) (run (op node ctxn None b))
      end
  end.

(** ** Registration *)

(** [reflect.Value] as the adapter uses it: the zero Value, or the Value
    of a context, of an error or of a payload. *)
Inductive rvalue :=
| RZero
| RCtx (m : contxt)
| RErr (e : goerror)
| RVal (v : value).

(** [reflect.ValueOf(val)]: the zero Value for a nil interface. *)
Definition ValueOf (val : value) : rvalue :=
  match val with
  | VNil => RZero
  | _ => RVal val
  end.

(** [reflect.ValueOf(err)] for [err error]: the zero Value when there is no
    error. *)
Definition ValueOfError (err : option goerror) : rvalue :=
  match err with
  | None => RZero
  | Some e => RErr e
  end.

Definition is_zero (v : rvalue) : bool :=
  match v with
  | RZero => true
  | _ => false
  end.

(** The part of package [reflection] (and of Go's [reflect]) on which the
    structural adapter relies.  Its code is not among the sources at hand,
    so the development is parametric in it: [dynamic] are the Go values
    that are neither a node nor one of the three handler types, [rtype] is
    [reflect.Type]; [CanSetFor] and [Convert] are the two helpers the
    adapted closure calls on the payload ([None] when the helper panics,
    respectively returns an error), and [Invoke x args] is the body of the
    callable [x] run on the arguments [args]. *)
Class Reflection := {
  rtype : Type;
  dynamic : Type;
  IsFuncType : dynamic -> bool;
  GetFuncArgumentsType : dynamic -> list rtype;
  CanSetForType : rtype -> rtype -> bool * bool;
  ctxType : rtype;
  errorType : rtype;
  CanSetFor : rtype -> rvalue -> option (bool * bool);
  Convert : rtype -> rvalue -> option rvalue;
  Invoke : dynamic -> list rvalue -> list cmd
}.

Definition newline : string := String "010"%char EmptyString.

Section Registration.
Context `{R : Reflection}.

(** The [interface{}] argument of [Signal] and [AsyncSignal], by the case
    of the type switch that takes it. *)
Inductive arg :=
| ArgNode (n : ptr)
| ArgHandler (h : Handler)
| ArgErrorHandler (dh : ErrorHandler)
| ArgDataHandler (dh : DataHandler)
| ArgOther (x : dynamic).

(** [tm.Call(in)], with [tm] the [reflect.Value] of the callable:
    [reflect.Value.Call] panics when one of the arguments is the zero
    Value, and runs the callable otherwise. *)
Definition tm_Call (x : dynamic) (args : list rvalue) : list cmd :=
  if existsb is_zero args then [CmdPanic] else Invoke x args.

(** The closure that [Signal] and [AsyncSignal] build around a callable [x]
    whose third parameter has type [data]:
    [func(m Ctx, err error, val interface{}) { ... }]. *)
Definition reflected (x : dynamic) (data : rtype) : Handler :=
  fun m err val =>
    let ma := RCtx m in
    let erm := ValueOfError err in
    match err with
    | Some _ => tm_Call x [ma; erm; ValueOf VNil]
    | None =>
        let mVal := ValueOf val in
        match CanSetFor data mVal with
        | None => [CmdPanic]
        | Some (ok, convert) =>
            if negb ok then []
            else if convert then
              match Convert data mVal with
              | None => []
              | Some relVal => tm_Call x [ma; erm; relVal]
              end
            else tm_Call x [ma; erm; RZero]
        end
    end.

(** The type switch of [Signal] and [AsyncSignal]; the two differ only in
    the constructor [make] ([Sync] or [ASync]).  [None] is the early
    [return nil]. *)
Definition resolve (make : Handler -> M ptr) (node : arg) : M (option ptr) :=
  match node with
  | ArgNode n => ret (Some n)
  | ArgHandler h => let* n := make h in ret (Some n)
  | ArgErrorHandler dh =>
      let* n := make (fun m err val =>
                        match err with
                        | None => dh m err
                        | Some _ => [CmdWrite (RW m) m val]
                        end) in
      ret (Some n)
  | ArgDataHandler dh =>
      let* n := make (fun m err val =>
                        match err with
                        | Some e => [CmdWrite (RW m) m (VError e)]
                        | None => dh m val
                        end) in
      ret (Some n)
  | ArgOther x =>
      emit (EPrintf ("Calling sync default" +:+ newline)) ;;
      if negb (IsFuncType x) then ret None
      else
        let args := GetFuncArgumentsType x in
        let alen := length args in
        if (alen <? 3) || (3 <? alen) then ret None
        else
          let* a0 := index_at args 0 in
          if negb (fst (CanSetForType ctxType a0)) then ret None
          else
            let* a1 := index_at args 1 in
            if negb (fst (CanSetForType errorType a1)) then ret None
            else
              let* data := index_at args 2 in
              let* n := make (reflected x data) in
              ret (Some n)
  end.

(** [p.rw.Lock(); p.subs = append(p.subs, n); p.rw.Unlock()] *)
Definition subscribe (p n : ptr) : M unit :=
  fun s =>
    match heap s !! p with
    | Some self =>
        Ok tt []
           (mkState (<[p := mkPub (uuid self) (op self) (root self)
                                  (async self) (subs self ++ [n])]> (heap s))
                    (uuids s))
    | None => Panic s
    end.

Definition register (make : Handler -> M ptr) (p : ptr) (node : arg)
    : M (option ptr) :=
  let* r := resolve make node in
  match r with
  | None => ret None
  | Some n => subscribe p n ;; ret (Some n)
  end.

(** [func (p *pub) Signal(node interface{}) Node] *)
Definition Signal (p : ptr) (node : arg) : M (option ptr) :=
  register Sync p node.

(** [func (p *pub) AsyncSignal(node interface{}) Node] *)
Definition AsyncSignal (p : ptr) (node : arg) : M (option ptr) :=
  register ASync p node.

Definition SignalD (p : ptr) (dh : DataHandler) : M (option ptr) :=
  Signal p (ArgHandler (WrapData dh)).

Definition AsyncSignalD (p : ptr) (dh : DataHandler) : M (option ptr) :=
  AsyncSignal p (ArgHandler (WrapData dh)).

Definition SignalE (p : ptr) (dh : ErrorHandler) : M (option ptr) :=
  Signal p (ArgHandler (WrapError dh)).

Definition AsyncSignalE (p : ptr) (dh : ErrorHandler) : M (option ptr) :=
  AsyncSignal p (ArgHandler (WrapError dh)).

(** ** Chain builders *)

(** [func Lift(rws ...Reactor)] *)
Definition Lift (rws : list ptr) : M unit :=
  let rwsLen := length rws in
  for_up rwsLen (fun index =>
    if (index <? 1)%Z then ret tt
    else
      let* node := index_at rws index in
      let* pnode := index_at rws (index - 1) in
      Signal pnode (ArgNode node) ;; ret tt).

(** [func DeLift(rws ...Reactor)] *)
Definition DeLift (rws : list ptr) : M unit :=
  let rwsLen := length rws in
  for_down rwsLen (fun index =>
    if (Z.of_nat rwsLen - 1 <=? index)%Z then ret tt
    else
      let* pnode := index_at rws index in
      let* node := index_at rws (index - 1) in
      Signal pnode (ArgNode node) ;; ret tt).

End Registration.

(** ** A concrete reflection layer *)

(** Modelled from the spec: the parameter types a callable can declare, as
    far as the adapter tells them apart (package [reflection] is not among
    the sources).  [TCtx] is the context capability, [TError] the error
    capability, [TAny] is [interface{}]. *)
Inductive gotype := TCtx | TError | TAny | TInt | TString.

(** Modelled from the spec: a Go value that is neither a node nor one of
    the three handler types: a number, a string, or a callable with its
    declared parameter types and its body. *)
Inductive govalue :=
| GInt (z : Z)
| GString (s : string)
| GFunc (params : list gotype) (body : Handler).

Definition gotype_eqb (a b : gotype) : bool :=
  match a, b with
  | TCtx, TCtx | TError, TError | TAny, TAny
  | TInt, TInt | TString, TString => true
  | _, _ => false
  end.

(** Modelled from the spec: a type is assignable to itself and to
    [interface{}]; no conversion is needed then. *)
Definition assignable (target val : gotype) : bool * bool :=
  (match target with
   | TAny => true
   | _ => gotype_eqb target val
   end, false).

(** Modelled from the spec: whether the Value of a payload can be set
    where the third parameter type is declared, without conversion; asking
    for the type of the zero Value panics. *)
Definition payload_fits (data : gotype) (v : rvalue) : option (bool * bool) :=
  match v with
  | RZero => None
  | RVal val =>
      Some (match data, val with
            | TAny, _ => true
            | TInt, VInt _ => true
            | TString, VStr _ => true
            | TError, VError _ => true
            | _, _ => false
            end, false)
  | RCtx _ => Some (match data with TAny | TCtx => true | _ => false end, false)
  | RErr _ => Some (match data with TAny | TError => true | _ => false end, false)
  end.

(** The body of a callable run on the three arguments it was called
    with. *)
Definition go_invoke (x : govalue) (args : list rvalue) : list cmd :=
  match x, args with
  | GFunc _ body, [RCtx m; RErr e; RVal v] => body m (Some e) v
  | _, _ => []
  end.

Definition go_reflection : Reflection := {|
  rtype := gotype;
  dynamic := govalue;
  IsFuncType := fun x => match x with GFunc _ _ => true | _ => false end;
  GetFuncArgumentsType :=
    fun x => match x with GFunc params _ => params | _ => [] end;
  CanSetForType := assignable;
  ctxType := TCtx;
  errorType := TError;
  CanSetFor := payload_fits;
  Convert := fun _ v => Some v;
  Invoke := go_invoke
|}.

(** ** Sample graphs *)

(** A handler that forwards whatever it gets through its own node. *)
Definition relay : Handler :=
  fun m err data =>
    match err with
    | Some e => [CmdWrite (RW m) m (VError e)]
    | None => [CmdWrite (RW m) m data; CmdNote 1]
    end.

(** A handler that records the payload it was given. *)
Definition recorder : Handler :=
  fun _ err data =>
    match err, data with
    | None, VInt z => [CmdNote z]
    | _, _ => [CmdNote (-1)]
    end.

Definition node_of (id : nat) (h : Handler) (l : list ptr) : pub :=
  mkPub id h None false l.

(** Three fresh synchronous nodes [a = 0], [b = 1], [c = 2]. *)
Definition three_nodes : state :=
  mkState [node_of 0 relay []; node_of 1 relay []; node_of 2 relay []] 3.

(** Node [0] with subscribers [1], [2], [3]; node [1] with subscriber [3]. *)
Definition fan : state :=
  mkState [node_of 0 relay [1; 2; 3]; node_of 1 recorder [3];
           node_of 2 recorder []; node_of 3 recorder []] 4.

(** A relay [0] with one subscriber [1] that records what it is given. *)
Definition duo : state :=
  mkState [node_of 0 relay [1]; node_of 1 recorder []] 2.

(** An error-only handler that notes that it ran. *)
Definition on_clear : ErrorHandler := fun _ _ => [CmdNote 7].

(** A node built from [on_clear], with one subscriber. *)
Definition guarded : state :=
  mkState [node_of 0 (WrapError on_clear) [1]; node_of 1 recorder []] 2.

(** Node [0] subscribed to itself. *)
Definition knot : state := mkState [node_of 0 relay [0]] 1.

(** ** Notions used in the statements *)

(** The subscriber list of node [p] (empty for a nil pointer). *)
Definition subscribers (s : state) (p : ptr) : list ptr :=
  match heap s !! p with
  | Some node => subs node
  | None => []
  end.

(** Every subscriber chain that starts at [p] ends within [depth] hops and
    meets no nil pointer: the graph below [p] is acyclic. *)
Fixpoint bounded_below (depth : nat) (s : state) (p : ptr) : bool :=
  match depth with
  | O => false
  | S d =>
      match heap s !! p with
      | Some node => forallb (bounded_below d s) (subs node)
      | None => false
      end
  end.

(** The call is a [Write] on a node. *)
Definition is_write_call (e : entry) : bool :=
  match e with
  | EWrite _ _ _ => true
  | _ => false
  end.

(** The subscriber positions [i] of [0..n-1] at which [WriteEvery]
    forwards: those with [0 < finder(i, n) < n]. *)
Definition forwarded_positions (finder : NthFinder) (n : nat) : list nat :=
  filter (fun i => (0 < finder (Z.of_nat i) (Z.of_nat n)
                    ∧ finder (Z.of_nat i) (Z.of_nat n) < Z.of_nat n)%Z)
         (seq 0 n).

(** The elements of [l] at the given positions. *)
Definition picks {A} (l : list A) (positions : list nat) : list A :=
  omap (fun i => l !! i) positions.

(** How [Read] hands a value to the handler: an error goes in the error
    argument with no payload, anything else goes in the payload. *)
Definition dispatch (v : value) : option goerror * value :=
  match as_error v with
  | Some e => (Some e, VNil)
  | None => (None, v)
  end.

(** The context [Read] builds on node [p]. *)
Definition read_ctx (p : ptr) (ctxs : list carrier) : contxt :=
  mkContxt (match ctxs with [] => Background | c :: _ => c end) p.

(** The call a handler command turns into. *)
Definition cmd_entry (c : cmd) : entry :=
  match c with
  | CmdWrite t m v => EWrite t m v
  | CmdWriteEvery t m v f => EWriteEvery t m v f
  | CmdRead t v ctxs => ERead t v ctxs
  | CmdNote n => ENote n
  | CmdPanic => EPanic
  end.

(** A handler command that is sure to return: a note, or a write into a
    part of the graph that is acyclic within [depth] hops. *)
Definition calm (depth : nat) (s : state) (c : cmd) : bool :=
  match c with
  | CmdNote _ => true
  | CmdWrite t _ _ | CmdWriteEvery t _ _ _ => bounded_below depth s t
  | CmdRead _ _ _ => false
  | CmdPanic => false
  end.

(** [N] calls of [Read] on the same node, one after the other. *)
Definition ReadEach (fuel : nat) (p : ptr) (vs : list value)
    (ctxs : list carrier) : M unit :=
  forM_ (fun v => Read fuel p v ctxs) vs.

Section Surface.
Context `{R : Reflection}.

(** The shapes the structural adapter turns down: not a callable, or a
    callable that does not take exactly three parameters, or whose first
    parameter cannot hold a [Ctx], or whose second cannot hold an [error]. *)
Definition rejected (x : dynamic) : Prop :=
  IsFuncType x = false \/
  length (GetFuncArgumentsType x) <> 3 \/
  (exists a0, GetFuncArgumentsType x !! 0 = Some a0 /\
              fst (CanSetForType ctxType a0) = false) \/
  (exists a1, GetFuncArgumentsType x !! 1 = Some a1 /\
              fst (CanSetForType errorType a1) = false).

(** The methods of the interface [Node]. *)
Inductive api :=
| ApiRead (p : ptr) (v : value) (ctxs : list carrier)
| ApiWrite (p : ptr) (ctx : contxt) (v : value)
| ApiWriteEvery (p : ptr) (ctx : contxt) (v : value)
    (finder : option NthFinder)
| ApiSignal (p : ptr) (a : arg)
| ApiAsyncSignal (p : ptr) (a : arg)
| ApiSignalD (p : ptr) (dh : DataHandler)
| ApiAsyncSignalD (p : ptr) (dh : DataHandler)
| ApiSignalE (p : ptr) (dh : ErrorHandler)
| ApiAsyncSignalE (p : ptr) (dh : ErrorHandler)
| ApiUUID (p : ptr).

(** One method call; the result is the node a registration returns. *)
Definition invoke (fuel : nat) (c : api) : M (option ptr) :=
  match c with
  | ApiRead p v ctxs => Read fuel p v ctxs ;; ret None
  | ApiWrite p ctx v => Write fuel p ctx v ;; ret None
  | ApiWriteEvery p ctx v finder => WriteEvery fuel p ctx v finder ;; ret None
  | ApiSignal p a => Signal p a
  | ApiAsyncSignal p a => AsyncSignal p a
  | ApiSignalD p dh => SignalD p dh
  | ApiAsyncSignalD p dh => AsyncSignalD p dh
  | ApiSignalE p dh => SignalE p dh
  | ApiAsyncSignalE p dh => AsyncSignalE p dh
  | ApiUUID p => UUID p ;; ret None
  end.

(** The node on which a call registers a subscriber, if it is one of the
    registration methods. *)
Definition registers (c : api) : option ptr :=
  match c with
  | ApiSignal p _ | ApiAsyncSignal p _
  | ApiSignalD p _ | ApiAsyncSignalD p _
  | ApiSignalE p _ | ApiAsyncSignalE p _ => Some p
  | _ => None
  end.

(** A sequence of method calls, with the result of each. *)
Fixpoint session (fuel : nat) (cs : list api) : M (list (option ptr)) :=
  match cs with
  | [] => ret []
  | c :: cs' =>
      let* r := invoke fuel c in
      let* rs := session fuel cs' in
      ret (r :: rs)
  end.

(** The nodes that a sequence of calls with results [rs] registered on
    [q], in the order of the calls. *)
Definition registered_on (q : ptr) (cs : list api) (rs : list (option ptr))
    : list ptr :=
  omap (fun cr =>
          match registers (fst cr), snd cr with
          | Some p, Some n => if decide (p = q) then Some n else None
          | _, _ => None
          end)
       (zip cs rs).

(** What a registration call offers to the receiver: a node that exists
    already, a handler from which a node is to be built (synchronous or
    asynchronous), or nothing. *)
Inductive offer :=
| OfferNode (n : ptr)
| OfferNew (h : Handler) (is_async : bool)
| OfferNothing.

(** The type of the third parameter of a callable that the structural
    adapter takes on: a callable with exactly three parameters, the first
    able to hold a [Ctx] and the second an [error]. *)
Definition accepted (x : dynamic) : option rtype :=
  if IsFuncType x then
    match GetFuncArgumentsType x with
    | [a0; a1; data] =>
        if fst (CanSetForType ctxType a0) && fst (CanSetForType errorType a1)
        then Some data else None
    | _ => None
    end
  else None.

(** What the argument of [Signal] ([is_async = false]) or [AsyncSignal]
    ([is_async = true]) offers. *)
Definition offer_of (is_async : bool) (a : arg) : offer :=
  match a with
  | ArgNode n => OfferNode n
  | ArgHandler h => OfferNew h is_async
  | ArgErrorHandler dh => OfferNew (WrapError dh) is_async
  | ArgDataHandler dh => OfferNew (WrapData dh) is_async
  | ArgOther x =>
      match accepted x with
      | Some data => OfferNew (reflected x data) is_async
      | None => OfferNothing
      end
  end.

(** What a method call offers to its receiver. *)
Definition offered (c : api) : offer :=
  match c with
  | ApiSignal _ a => offer_of false a
  | ApiAsyncSignal _ a => offer_of true a
  | ApiSignalD _ dh => OfferNew (WrapData dh) false
  | ApiAsyncSignalD _ dh => OfferNew (WrapData dh) true
  | ApiSignalE _ dh => OfferNew (WrapError dh) false
  | ApiAsyncSignalE _ dh => OfferNew (WrapError dh) true
  | _ => OfferNothing
  end.

End Surface.

(** What [Lift] is to register on [q]: for each position [i] from [1] to
    [N-1], [rws[i]] when [rws[i-1]] is [q]. *)
Definition lift_targets (rws : list ptr) (q : ptr) : list ptr :=
  omap (fun i => if decide (rws !! (i - 1) = Some q) then rws !! i else None)
       (seq 1 (length rws - 1)).

(** ** Notions used in the further statements *)

(** [q] is a subscriber of [p], directly or through other nodes. *)
Inductive reaches (s : state) : ptr -> ptr -> Prop :=
| reaches_sub p q : q ∈ subscribers s p -> reaches s p q
| reaches_step p q r : q ∈ subscribers s p -> reaches s q r -> reaches s p r.

(** No subscriber list holds a nil pointer. *)
Definition closed (s : state) : bool :=
  forallb (fun node => forallb (fun q => q <? length (heap s)) (subs node))
          (heap s).

(** A call tree in which every call is a [Write] that hands on the value
    [v] and the carrier [c0], with the calling node as the surface of its
    context. *)
Fixpoint relayed (c0 : carrier) (v : value) (parent : ptr) (c : call) : Prop :=
  match c with
  | Call (EWrite q m v') inner =>
      Ctx m = c0 /\ RW m = parent /\ v' = v /\
      fold_right and True (map (relayed c0 v q) inner)
  | Call _ _ => False
  end.

(** What [DeLift] registers on [q] before its last round: for each
    position [i] from [N-2] down to [1], [rws[i-1]] when [rws[i]] is [q]. *)
Definition delift_targets (rws : list ptr) (q : ptr) : list ptr :=
  omap (fun i => if decide (rws !! i = Some q) then rws !! (i - 1) else None)
       (reverse (seq 1 (length rws - 2))).

(** The node [n'] is the node [n], with subscribers possibly added at the
    end of its list: identifier, handler, mode and root are the same. *)
Definition grown_from (n n' : pub) : Prop :=
  uuid n' = uuid n /\ op n' = op n /\ async n' = async n /\
  root n' = root n /\ subs n `prefix_of` subs n'.

(** Every node of [s] is still there in [s'], possibly grown. *)
Definition extends (s s' : state) : Prop :=
  forall p node, heap s !! p = Some node ->
    exists node', heap s' !! p = Some node' /\ grown_from node node'.


(** A data-only handler that notes the number it is given. *)
Definition tally : DataHandler :=
  fun _ data => match data with VInt z => [CmdNote z] | _ => [] end.

(** A sequence of calls on [three_nodes]: each of the six registration
    methods, mixed with reads and writes; one argument is turned down by
    the adapter. *)
Definition sample_session : list (@api go_reflection) :=
  [ApiSignal 0 (ArgNode 2);
   ApiWrite 0 (mkContxt Background 0) (VInt 1);
   ApiSignalD 0 tally;
   ApiSignal 0 (@ArgOther go_reflection (GInt 3));
   ApiAsyncSignalD 1 tally;
   ApiRead 0 (VInt 2) [];
   ApiSignalE 1 on_clear;
   ApiAsyncSignalE 2 on_clear;
   ApiWriteEvery 1 (mkContxt Background 1) (VInt 4) None;
   ApiAsyncSignal 1 (ArgNode 0);
   ApiSignal 2 (@ArgOther go_reflection (GFunc [TCtx; TError; TInt] recorder))].

(** A node built from [tally], with two subscribers. *)
Definition sieve : state :=
  mkState [node_of 0 (WrapData tally) [1; 2]; node_of 1 recorder [];
           node_of 2 recorder []] 3.

Section Scripts.
Context `{R : Reflection}.

(** What a program can do with nodes: build one, or call a method of
    one. *)
Inductive action :=
| ActSync (h : Handler)
| ActASync (h : Handler)
| ActDSync (dh : DataHandler)
| ActDASync (dh : DataHandler)
| ActCall (c : api).

Definition act (fuel : nat) (a : action) : M unit :=
  match a with
  | ActSync h => Sync h ;; ret tt
  | ActASync h => ASync h ;; ret tt
  | ActDSync dh => DSync dh ;; ret tt
  | ActDASync dh => DASync dh ;; ret tt
  | ActCall c => invoke fuel c ;; ret tt
  end.

(** A sequence of actions. *)
Definition script (fuel : nat) (l : list action) : M unit :=
  forM_ (act fuel) l.

End Scripts.

(** A script on [three_nodes]: nodes are built and wired while values are
    read and written. *)
Definition sample_script : list (@action go_reflection) :=
  [ActASync recorder;
   ActCall (ApiSignal 0 (ArgNode 3));
   ActCall (ApiRead 0 (VInt 5) []);
   ActCall (ApiAsyncSignal 3 (ArgDataHandler tally));
   ActDSync tally;
   ActCall (ApiWriteEvery 0 (mkContxt Background 0) (VInt 1) None)].

(** ** The callers of the tests *)

(** [TestMousePosition]: a synchronous node whose handler forwards what
    it is given through its own node and, for a payload, adds one to a
    counter (the handler [relay]); it is read [n] times with the pairs
    [[i * 3, i + 1]]. *)
Definition TestMousePosition (fuel n : nat) : M unit :=
  let* pos := Sync relay in
  for_up n (fun i => Read fuel pos (VInts [i * 3; i + 1]%Z) []).

(** The value of the counter of the test: the number of times a handler
    body added one to it. *)
Definition count (tr : list call) : nat :=
  length (List.filter (fun e => match e with ENote 1 => true | _ => false end)
                      (all_entries tr)).

Section Benchmark.
Context `{R : Reflection}.

(** [BenchmarkNodes]: [dude] forwards the data it reads, [dudette],
    asynchronous, would sleep (the note [1000000], in nanoseconds) and
    forward; [dudette] is registered on [dude], which is then read [n]
    times with the numbers [0..n-1]. *)
Definition BenchmarkNodes (fuel n : nat) : M unit :=
  let* dude := DSync (fun r data => [CmdWrite (RW r) r data]) in
  let* dudette := DASync (fun r data =>
                            [CmdNote 1000000; CmdWrite (RW r) r data]) in
  Signal dude (ArgNode dudette) ;;
  for_up n (fun i => Read fuel dude (VInt i) []).

End Benchmark.

(** ** The console sinks (package [stdout]) *)

(** The formatting functions of [strconv] and the floating point types,
    which lie outside the sources. *)
Class Strconv := {
  float64 : Type;
  float32 : Type;
  widen : float32 -> float64;
  Itoa : Z -> string;
  QuoteRune : Z -> string;
  FormatFloat : float64 -> string
}.

(** The attributes of package [color]. *)
Inductive colour := FgBlue | FgCyan | FgRed | FgWhite | FgBlack.

(** What is written to a buffer: plain bytes, or text printed through a
    colour. *)
Inductive chunk :=
| Plain (text : string)
| Tinted (c : colour) (text : string).

Definition tab : string := String "009"%char EmptyString.

Definition logTypeKey : string := "LogKEY".
Definition INFO : string := "INFO".
Definition DEBUG : string := "DEBUG".
Definition ERROR : string := "ERROR".
Definition NOTICE : string := "NOTICE".
Definition UNKOWN : string := "Unknown".

Section Console.
Context `{S : Strconv}.

(** An [interface{}] value held by an entry, by the case of the type
    switch of [printValue] that takes it; [AOther] carries what
    [json.Marshal] answers for it. *)
Inductive anyval :=
| ANil
| AString (bo : string)
| AStringer (text : string)
| AError (msg : string)
| AInt (bo : Z)
| AInt64 (bo : Z)
| ARune (bo : Z)
| ABool (bo : bool)
| AByte (bo : Z)
| AFloat64 (bo : float64)
| AFloat32 (bo : float32)
| AOther (json : option string).

(** A [metrics.Entry] as one call of a sink sees it (package [metrics] is
    not among the sources): its message, what [Get(logTypeKey)] answers
    ([None] when the key is missing), and its fields in the order in which
    the [range] of that call visits the map [Fields()].  Go leaves the
    order of a [range] over a map open, and it may differ from one call to
    the next: another call on the same entry sees another value of this
    type, which is related to the first by [same_entry]. *)
Record Entry := mkEntry {
  Message : string;
  LogType : option anyval;
  Fields : list (string * anyval)
}.

(** Two calls see the same entry: the message and the log type agree, and
    the fields are the same up to the order in which they are visited. *)
Definition same_entry (e1 e2 : Entry) : Prop :=
  Message e1 = Message e2 /\ LogType e1 = LogType e2 /\
  Fields e1 ≡ₚ Fields e2.

(** [func printValue(val interface{}) string].  An [int64] goes through
    [strconv.Itoa(int(bo))], which on a 64-bit platform is the number
    itself; a nil value takes the default case, where [json.Marshal]
    answers [null]. *)
Definition printValue (val : anyval) : string :=
  match val with
  | AString bo => bo
  | AStringer text => text
  | AError msg => msg
  | AInt bo => Itoa bo
  | AInt64 bo => Itoa bo
  | ARune bo => QuoteRune bo
  | ABool bo => if bo then "true" else "false"
  | AByte bo => QuoteRune bo
  | AFloat64 bo => FormatFloat bo
  | AFloat32 bo => FormatFloat (widen bo)
  | AOther (Some data) => data
  | AOther None => "-"
  | ANil => "null"
  end.

(** [if cid, ok := e.Get(logTypeKey); ok { if sid, ok := cid.(string); ok
    { id = sid } }] *)
Definition entry_id (e : Entry) : string :=
  match LogType e with
  | Some (AString sid) => sid
  | _ => ""
  end.

(** The field is skipped: [key == "" || val == nil]. *)
Definition blank (kv : string * anyval) : bool :=
  String.eqb (fst kv) "" || match snd kv with ANil => true | _ => false end.

(** What one field adds to the buffer. *)
Definition field_block (id : string) (kv : string * anyval) : list chunk :=
  if blank kv then []
  else
    let tail := [Tinted FgBlue "="; Tinted FgCyan (printValue (snd kv));
                 Plain " "; Plain (tab +:+ newline)] in
    let head := [Plain (tab +:+ tab +:+ tab +:+ tab);
                 Plain (newline +:+ tab)] in
    if String.eqb id INFO then head ++ Tinted FgBlue (fst kv) :: tail
    else if String.eqb id DEBUG then head ++ Tinted FgCyan (fst kv) :: tail
    else if String.eqb id ERROR then head ++ Tinted FgRed (fst kv) :: tail
    else if String.eqb id NOTICE then head ++ Tinted FgWhite (fst kv) :: tail
    else [].

(** [func printEntryParams(bu io.Writer, e metrics.Entry)]: what it
    writes to [bu], the fields being taken in the order in which this call
    visits them. *)
Definition printEntryParams (e : Entry) : list chunk :=
  Plain (tab +:+ tab) :: flat_map (field_block (entry_id e)) (Fields e).

(** What follows the label in both sinks. *)
Definition emit_body (e : Entry) : list chunk :=
  [Tinted FgCyan "[opening]"; Plain ":"]
  ++ (if String.eqb (Message e) "" then []
      else [Plain (tab +:+ tab); Plain (Message e)])
  ++ [Plain newline] ++ printEntryParams e ++ [Plain newline].

(** [func (Stdout) Emit(e metrics.Entry) error]: what is written to
    [os.Stdout], and the error returned. *)
Definition Stdout_Emit (e : Entry) : list chunk * option string :=
  let id := entry_id e in
  let label :=
    if String.eqb id INFO then Tinted FgBlue INFO
    else if String.eqb id DEBUG then Tinted FgCyan DEBUG
    else if String.eqb id ERROR then Tinted FgRed ERROR
    else if String.eqb id NOTICE then Tinted FgWhite NOTICE
    else Tinted FgWhite UNKOWN in
  (label :: emit_body e, None).

(** [func (Stderr) Emit(e metrics.Entry) error]: what is written to
    [os.Stdout] (the sink writes there too), and the error returned. *)
Definition Stderr_Emit (e : Entry) : list chunk * option string :=
  let id := entry_id e in
  if String.eqb id ERROR then (Tinted FgRed "ERROR" :: emit_body e, None)
  else ([], Some "Only Error ID allowed").

(** The fields that have a key and a value, in the order in which they
    are visited. *)
Definition printed (e : Entry) : list (string * anyval) :=
  List.filter (fun kv => negb (blank kv)) (Fields e).

End Console.

(** A plain formatting layer, for the examples: numbers in decimal
    notation would do as well. *)
Definition plain_strconv : Strconv := {|
  float64 := Z;
  float32 := Z;
  widen := fun x => x;
  Itoa := fun z => if (z <? 0)%Z then "-n" else "n";
  QuoteRune := fun _ => "'r'";
  FormatFloat := fun _ => "0.0000"
|}.

(** An entry of type [ERROR] with one field that has no key and one that
    has no value among its four fields. *)
Definition sample_entry : @Entry plain_strconv :=
  mkEntry "disk full" (Some (AString "ERROR"))
          [("", AInt 1); ("path", AString "/var");
           ("size", ANil); ("code", AInt 3)].

(** The same entry, with its fields visited in another order. *)
Definition sample_entry_again : @Entry plain_strconv :=
  mkEntry "disk full" (Some (AString "ERROR"))
          [("size", ANil); ("code", AInt 3);
           ("", AInt 1); ("path", AString "/var")].

(** An entry whose type is not a string. *)
Definition odd_entry : @Entry plain_strconv :=
  mkEntry "" (Some (AInt 3)) [("path", AString "/var")].

(** * Properties *)

(** ** The monad and the loops *)

Lemma bind_Ok {A B} (m : M A) (k : A -> M B) s a tr s1 :
  m s = Ok a tr s1 ->
  bind m k s = match k a s1 with
               | Ok b tr' s2 => Ok b (tr ++ tr') s2
               | Panic s2 => Panic s2
               | OutOfFuel => OutOfFuel
               end.
Proof. intros H. unfold bind. by rewrite H. Qed.

Lemma bind_inv {A B} (m : M A) (k : A -> M B) s b tr s2 :
  bind m k s = Ok b tr s2 ->
  exists a tr1 s1 tr2,
    m s = Ok a tr1 s1 /\ k a s1 = Ok b tr2 s2 /\ tr = tr1 ++ tr2.
Proof.
  unfold bind. destruct (m s) as [a tr1 s1| |]; [|done..].
  destruct (k a s1) as [b' tr2 s2'| |] eqn:Hk; [|done..].
  intros [= -> <- ->]. by exists a, tr1, s1, tr2.
Qed.

Lemma ret_inv {A} (a b : A) s tr s' :
  ret a s = Ok b tr s' -> b = a /\ tr = [] /\ s' = s.
Proof. by intros [= <- <- <-]. Qed.

Lemma inside_inv {A} e (m : M A) s a tr s' :
  inside e m s = Ok a tr s' ->
  exists inner, m s = Ok a inner s' /\ tr = [Call e inner].
Proof.
  unfold inside. destruct (m s) as [a' inner s1| |]; [|done..].
  intros [= -> <- ->]. by exists inner.
Qed.

Lemma deref_Some p s node :
  heap s !! p = Some node -> deref p s = Ok node [] s.
Proof. intros H. unfold deref. by rewrite H. Qed.

Lemma deref_inv p s node tr s' :
  deref p s = Ok node tr s' -> heap s !! p = Some node /\ tr = [] /\ s' = s.
Proof.
  unfold deref. destruct (heap s !! p); [|done]. by intros [= -> <- <-].
Qed.

Lemma all_entries_app tr1 tr2 :
  all_entries (tr1 ++ tr2) = all_entries tr1 ++ all_entries tr2.
Proof. unfold all_entries. apply flat_map_app. Qed.

Lemma all_entries_call e inner :
  all_entries [Call e inner] = e :: all_entries inner.
Proof. unfold all_entries. simpl. by rewrite app_nil_r. Qed.

(** A loop whose body leaves the state alone and makes one call per
    element makes these calls in the order of the list. *)
Lemma forM__calls {A} (body : A -> M unit) (f : A -> entry)
    (Q : entry -> Prop) (l : list A) s :
  (forall x, x ∈ l -> exists inner,
      body x s = Ok tt [Call (f x) inner] s /\
      Forall Q (f x :: all_entries inner)) ->
  exists tr, forM_ body l s = Ok tt tr s /\
             top <$> tr = f <$> l /\ Forall Q (all_entries tr).
Proof.
  induction l as [|x l IH]; intros Hbody.
  - exists []. repeat split; constructor.
  - destruct (Hbody x) as (inner & Hx & HQ); [by left|].
    destruct IH as (tr & Hl & Htop & Hall).
    { intros y Hy. apply Hbody. by right. }
    exists (Call (f x) inner :: tr). cbn [forM_].
    rewrite (bind_Ok _ _ _ _ _ _ Hx), Hl. split; [done|split].
    + by rewrite !fmap_cons, Htop.
    + change (Call (f x) inner :: tr) with ([Call (f x) inner] ++ tr).
      rewrite all_entries_app, all_entries_call. by apply Forall_app.
Qed.

(** A loop whose body never changes the state never changes it. *)
Lemma forM__frame {A} (body : A -> M unit) (l : list A) s tr s' :
  (forall x s0 tr0 s1, x ∈ l -> body x s0 = Ok tt tr0 s1 -> s1 = s0) ->
  forM_ body l s = Ok tt tr s' -> s' = s.
Proof.
  revert s tr. induction l as [|x l IH]; intros s tr Hbody; simpl.
  - by intros [= _ <-].
  - intros (a & tr1 & s1 & tr2 & Hx & Hl & _)%bind_inv. destruct a.
    apply Hbody in Hx as ->; [|by left].
    eapply IH; [|done]. intros y s0 tr0 s2 Hy. apply Hbody. by right.
Qed.

(** The calls of a loop that returned, when each round makes one call. *)
Lemma forM__calls_inv {A} (body : A -> M unit) (f : A -> entry)
    (Q : entry -> Prop) (l : list A) :
  (forall x s0 tr0 s1, x ∈ l -> body x s0 = Ok tt tr0 s1 ->
     exists inner, tr0 = [Call (f x) inner] /\
                   Forall Q (f x :: all_entries inner)) ->
  forall s tr s', forM_ body l s = Ok tt tr s' ->
    top <$> tr = f <$> l /\ Forall Q (all_entries tr).
Proof.
  induction l as [|x l IH]; intros Hbody s tr s'; cbn [forM_].
  - intros (_ & -> & _)%ret_inv. split; [done|constructor].
  - intros ([] & tr1 & s1 & tr2 & Hx & Hl & ->)%bind_inv.
    destruct (Hbody x s tr1 s1) as (inner & -> & HQ); [by left|done|].
    apply IH in Hl as [Htop Hall].
    2:{ intros y s0 tr0 s2 Hy. apply Hbody. by right. }
    split.
    + cbn [app]. by rewrite !fmap_cons, Htop.
    + rewrite all_entries_app, all_entries_call. by apply Forall_app.
Qed.

(** ** Write *)

(** The value [Write] hands on is the value it was given, whichever branch
    of the classification forwards it. *)
Lemma forwarded_value v :
  match as_error v with Some err => VError err | None => v end = v.
Proof. by destruct v. Qed.

Lemma forward_branch fuel q ctxn v :
  match as_error v with
  | Some err => inside (EWrite q ctxn (VError err))
                  (Write fuel q ctxn (VError err))
  | None => inside (EWrite q ctxn v) (Write fuel q ctxn v)
  end = inside (EWrite q ctxn v) (Write fuel q ctxn v).
Proof. by destruct v. Qed.

Lemma is_write_not_handler e : is_write_call e = true -> is_handler_call e = false.
Proof. by destruct e. Qed.

Lemma Write_unfold fuel p ctx v s node :
  heap s !! p = Some node ->
  Write (S fuel) p ctx v s =
  forM_ (fun q => inside (EWrite q (mkContxt (Ctx ctx) p) v)
                         (Write fuel q (mkContxt (Ctx ctx) p) v))
        (subs node) s.
Proof.
  intros Hp. simpl. rewrite (bind_Ok _ _ _ _ _ _ (deref_Some _ _ _ Hp)).
  assert (forall l, forM_ (fun q =>
             match as_error v with
             | Some err => inside (EWrite q (mkContxt (Ctx ctx) p) (VError err))
                             (Write fuel q (mkContxt (Ctx ctx) p) (VError err))
             | None => inside (EWrite q (mkContxt (Ctx ctx) p) v)
                         (Write fuel q (mkContxt (Ctx ctx) p) v)
             end) l s =
           forM_ (fun q => inside (EWrite q (mkContxt (Ctx ctx) p) v)
                             (Write fuel q (mkContxt (Ctx ctx) p) v)) l s) as ->.
  { intros l. f_equal. destruct v; reflexivity. }
  by destruct (forM_ _ _ s).
Qed.

(** [Write] on an acyclic part of the graph returns, leaves the state as it
    was, calls [Write] on each subscriber in registration order, and makes
    nothing but [Write] calls all the way down. *)
Lemma Write_total fuel : forall p ctx v s,
  bounded_below fuel s p = true ->
  exists tr,
    Write fuel p ctx v s = Ok tt tr s /\
    top <$> tr = (fun q => EWrite q (mkContxt (Ctx ctx) p) v) <$> subscribers s p /\
    Forall (fun e => is_write_call e = true) (all_entries tr).
Proof.
  induction fuel as [|fuel IH]; intros p ctx v s Hb; [done|].
  simpl in Hb. unfold subscribers.
  destruct (heap s !! p) as [node|] eqn:Hp; [|done].
  rewrite (Write_unfold _ _ _ _ _ _ Hp).
  apply forM__calls. intros q Hq.
  rewrite forallb_forall in Hb.
  destruct (IH q (mkContxt (Ctx ctx) p) v s) as (inner & Hw & _ & Hall).
  { apply Hb. by apply list_elem_of_In. }
  exists inner. split; [unfold inside; by rewrite Hw|].
  by constructor.
Qed.

(** Whenever [Write] returns, the state is the one it started from. *)
Lemma Write_frame fuel : forall p ctx v s tr s',
  Write fuel p ctx v s = Ok tt tr s' -> s' = s.
Proof.
  induction fuel as [|fuel IH]; intros p ctx v s tr s'; [done|].
  simpl. intros (node & tr1 & s1 & tr2 & Hd & Hl & _)%bind_inv.
  apply deref_inv in Hd as (_ & _ & ->).
  eapply forM__frame; [|done].
  intros q s0 tr0 s2 _. destruct (as_error v).
  - intros (inner & Hw & _)%inside_inv. by eapply IH.
  - intros (inner & Hw & _)%inside_inv. by eapply IH.
Qed.

Lemma Write_valid fuel p ctx v s tr s' :
  Write fuel p ctx v s = Ok tt tr s' -> is_Some (heap s !! p).
Proof.
  destruct fuel as [|fuel]; [done|]. cbn [Write]. unfold bind, deref.
  by destruct (heap s !! p).
Qed.

(** Whenever [Write] returns, whatever the fuel, it has called [Write] on
    each subscriber in registration order and has made nothing but [Write]
    calls. *)
Lemma Write_sound fuel : forall p ctx v s tr s',
  Write fuel p ctx v s = Ok tt tr s' ->
  top <$> tr = (fun q => EWrite q (mkContxt (Ctx ctx) p) v) <$> subscribers s p /\
  Forall (fun e => is_write_call e = true) (all_entries tr).
Proof.
  induction fuel as [|fuel IH]; intros p ctx v s tr s' Hw; [done|].
  destruct (Write_valid _ _ _ _ _ _ _ Hw) as [node Hp].
  rewrite (Write_unfold _ _ _ _ _ _ Hp) in Hw.
  unfold subscribers. rewrite Hp.
  eapply forM__calls_inv; [|exact Hw].
  intros q s0 tr0 s1 _ (inner & Hq & ->)%inside_inv.
  exists inner. split; [done|]. constructor; [done|].
  by apply IH in Hq as [_ Hall].
Qed.

(** ** WriteEvery *)

Lemma index_at_nat {A} (l : list A) i x s :
  l !! i = Some x -> index_at l (Z.of_nat i) s = Ok x [] s.
Proof.
  intros H. unfold index_at.
  destruct (Z.ltb_spec (Z.of_nat i) 0); [lia|].
  by rewrite Nat2Z.id, H.
Qed.

Lemma picks_cons {A} (l : list A) i x positions :
  l !! i = Some x -> picks l (i :: positions) = x :: picks l positions.
Proof. intros H. unfold picks. simpl. by rewrite H. Qed.

(** The loop of [WriteEvery] over the positions [positions] of the
    subscriber list [l]. *)
Lemma WriteEvery_loop fuel (f : NthFinder) (l : list ptr) (ctxn : contxt) v s :
  (forall q, q ∈ l -> bounded_below fuel s q = true) ->
  forall positions : list nat,
  (forall i, i ∈ positions -> i < length l) ->
  exists tr,
    forM_ (fun index =>
             let newIndex := f index (Z.of_nat (length l)) in
             if (0 <? newIndex)%Z && (newIndex <? Z.of_nat (length l))%Z then
               let* node := index_at l index in
               match as_error v with
               | Some err => inside (EWrite node ctxn (VError err))
                               (Write fuel node ctxn (VError err))
               | None => inside (EWrite node ctxn v) (Write fuel node ctxn v)
               end
             else ret tt)
          (Z.of_nat <$> positions) s = Ok tt tr s /\
    top <$> tr =
      (fun q => EWrite q ctxn v) <$>
        picks l (filter (fun i => (0 < f (Z.of_nat i) (Z.of_nat (length l))
                     ∧ f (Z.of_nat i) (Z.of_nat (length l)) < Z.of_nat (length l))%Z)
                   positions) /\
    Forall (fun e => is_write_call e = true) (all_entries tr).
Proof.
  intros Hb positions.
  set (body := fun index : Z => _).
  induction positions as [|i positions IH]; intros Hlt.
  - exists []. split; [done|]. split; [done|constructor].
  - destruct IH as (tr & Hl & Htop & Hall).
    { intros j Hj. apply Hlt. by right. }
    rewrite fmap_cons. cbn [forM_]. rewrite filter_cons. case_decide as HP.
    + destruct (lookup_lt_is_Some_2 l i) as [q Hq]; [apply Hlt; by left|].
      destruct (Write_total fuel q ctxn v s) as (inner & Hw & _ & Hin).
      { apply Hb. by eapply list_elem_of_lookup_2. }
      assert (body (Z.of_nat i) s = Ok tt [Call (EWrite q ctxn v) inner] s)
        as Hbody.
      { unfold body. cbv zeta.
        destruct HP as [->%Z.ltb_lt ->%Z.ltb_lt]. cbn [andb].
        rewrite (bind_Ok _ _ _ _ _ _ (index_at_nat _ _ _ _ Hq)).
        rewrite forward_branch. unfold inside. by rewrite Hw. }
      exists (Call (EWrite q ctxn v) inner :: tr).
      rewrite (picks_cons _ _ _ _ Hq), (bind_Ok _ _ _ _ _ _ Hbody), Hl.
      split; [done|]. split.
      * by rewrite !fmap_cons, Htop.
      * change (Call (EWrite q ctxn v) inner :: tr)
          with ([Call (EWrite q ctxn v) inner] ++ tr).
        rewrite all_entries_app, all_entries_call.
        apply Forall_app. split; [by constructor|done].
    + assert (body (Z.of_nat i) s = Ok tt [] s) as Hbody.
      { unfold body. cbv zeta.
        destruct (Z.ltb_spec 0 (f (Z.of_nat i) (Z.of_nat (length l))));
          destruct (Z.ltb_spec (f (Z.of_nat i) (Z.of_nat (length l)))
                               (Z.of_nat (length l)));
          cbn [andb]; try done. lia. }
      exists tr. by rewrite (bind_Ok _ _ _ _ _ _ Hbody), Hl.
Qed.

(** With the identity finder the forwarding positions are [1..n-1]. *)
Lemma forwarded_positions_default n :
  forwarded_positions defaultFinder n = seq 1 (n - 1).
Proof.
  unfold forwarded_positions, defaultFinder. destruct n as [|n]; [done|].
  cbn [seq]. rewrite filter_cons_False by lia.
  replace (S n - 1) with n by lia.
  assert (forall m k, k + m <= S n -> 1 <= k ->
            filter (fun i => (0 < Z.of_nat i ∧ Z.of_nat i < Z.of_nat (S n))%Z)
                   (seq k m) = seq k m) as H.
  { induction m as [|m IH]; intros k Hk H1; [done|].
    cbn [seq]. rewrite filter_cons_True by lia. f_equal. apply IH; lia. }
  apply H; lia.
Qed.

Lemma picks_shift {A} (x : A) l positions :
  picks (x :: l) (S <$> positions) = picks l positions.
Proof.
  unfold picks. induction positions as [|i positions IH]; [done|].
  rewrite fmap_cons. cbn [omap list_omap]. rewrite <- IH.
  reflexivity.
Qed.

Lemma picks_all {A} (l : list A) : picks l (seq 0 (length l)) = l.
Proof.
  induction l as [|x l IH]; [done|].
  cbn [length seq]. rewrite (picks_cons _ _ x) by done.
  by rewrite <- fmap_S_seq, picks_shift, IH.
Qed.

(** Picking the positions [1..n-1] drops the first element. *)
Lemma picks_tail {A} (l : list A) : picks l (seq 1 (length l - 1)) = drop 1 l.
Proof.
  destruct l as [|x l]; [done|]. cbn [length drop].
  replace (S (length l) - 1) with (length l) by lia.
  by rewrite <- fmap_S_seq, picks_shift, picks_all.
Qed.

Lemma WriteEvery_total fuel p ctx v finder s :
  bounded_below fuel s p = true ->
  exists tr,
    WriteEvery fuel p ctx v finder s = Ok tt tr s /\
    top <$> tr =
      (fun q => EWrite q (mkContxt (Ctx ctx) p) v) <$>
        picks (subscribers s p)
              (forwarded_positions (default defaultFinder finder)
                                   (length (subscribers s p))) /\
    Forall (fun e => is_write_call e = true) (all_entries tr).
Proof.
  destruct fuel as [|fuel]; [done|]. intros Hb. simpl in Hb.
  unfold subscribers. destruct (heap s !! p) as [node|] eqn:Hp; [|done].
  rewrite forallb_forall in Hb.
  destruct (WriteEvery_loop fuel (default defaultFinder finder) (subs node)
              (mkContxt (Ctx ctx) p) v s) with (positions := seq 0 (length (subs node)))
    as (tr & Hl & Htop & Hall).
  { intros q Hq. apply Hb. by apply list_elem_of_In. }
  { intros i [_ Hi]%elem_of_seq. lia. }
  exists tr. split; [|done].
  unfold WriteEvery. rewrite (bind_Ok _ _ _ _ _ _ (deref_Some _ _ _ Hp)).
  match goal with
  | |- context [for_up ?n ?b s] =>
      replace (for_up n b s) with (@Ok unit tt tr s)
        by (symmetry; destruct finder; exact Hl)
  end.
  done.
Qed.

Lemma index_at_inv {A} (l : list A) i s x tr s' :
  index_at l i s = Ok x tr s' -> tr = [] /\ s' = s.
Proof.
  unfold index_at. destruct (i <? 0)%Z; [done|].
  destruct (l !! Z.to_nat i); [|done]. by intros [= _ <- <-].
Qed.

Lemma WriteEvery_frame fuel p ctx v finder s tr s' :
  WriteEvery fuel p ctx v finder s = Ok tt tr s' -> s' = s.
Proof.
  destruct fuel as [|fuel]; [done|]. unfold WriteEvery.
  intros (node & tr1 & s1 & tr2 & Hd & Hl & _)%bind_inv.
  apply deref_inv in Hd as (_ & _ & ->). unfold for_up in Hl.
  eapply forM__frame; [|done].
  intros i s0 tr0 s2 _. cbv beta zeta.
  destruct (_ && _); [|by intros [= _ <-]].
  intros (q & tr3 & s3 & tr4 & Hi & Hw & _)%bind_inv.
  apply index_at_inv in Hi as [_ ->].
  rewrite forward_branch in Hw.
  apply inside_inv in Hw as (inner & Hw & _). by eapply Write_frame.
Qed.

Lemma index_at_nat_inv {A} (l : list A) i s x tr s' :
  index_at l (Z.of_nat i) s = Ok x tr s' -> l !! i = Some x.
Proof.
  unfold index_at. destruct (Z.of_nat i <? 0)%Z; [done|].
  rewrite Nat2Z.id. destruct (l !! i); [|done]. by intros [= ->].
Qed.

(** The calls of the loop of [WriteEvery], when it returned. *)
Lemma WriteEvery_loop_inv fuel (f : NthFinder) (l : list ptr) (ctxn : contxt) v :
  forall (positions : list nat) s tr s',
    forM_ (fun index =>
             let newIndex := f index (Z.of_nat (length l)) in
             if (0 <? newIndex)%Z && (newIndex <? Z.of_nat (length l))%Z then
               let* node := index_at l index in
               match as_error v with
               | Some err => inside (EWrite node ctxn (VError err))
                               (Write fuel node ctxn (VError err))
               | None => inside (EWrite node ctxn v) (Write fuel node ctxn v)
               end
             else ret tt)
          (Z.of_nat <$> positions) s = Ok tt tr s' ->
    top <$> tr =
      (fun q => EWrite q ctxn v) <$>
        picks l (filter (fun i => (0 < f (Z.of_nat i) (Z.of_nat (length l))
                     ∧ f (Z.of_nat i) (Z.of_nat (length l)) < Z.of_nat (length l))%Z)
                   positions) /\
    Forall (fun e => is_write_call e = true) (all_entries tr).
Proof.
  set (body := fun index : Z => _).
  induction positions as [|i positions IH]; intros s tr s'.
  - intros (_ & -> & _)%ret_inv. split; [done|constructor].
  - rewrite fmap_cons. cbn [forM_].
    intros ([] & tr1 & s1 & tr2 & Hi & Hl & ->)%bind_inv.
    apply IH in Hl as [Htop Hall]. rewrite filter_cons.
    unfold body in Hi. cbv zeta in Hi.
    destruct (Z.ltb_spec 0 (f (Z.of_nat i) (Z.of_nat (length l))));
      destruct (Z.ltb_spec (f (Z.of_nat i) (Z.of_nat (length l)))
                           (Z.of_nat (length l)));
      cbn [andb] in Hi; case_decide; try lia;
      try (apply ret_inv in Hi as (_ & -> & _); by split).
    apply bind_inv in Hi as (q & tr3 & s3 & tr4 & Hq & Hw & ->).
    pose proof (index_at_nat_inv _ _ _ _ _ _ Hq) as Hlq.
    apply index_at_inv in Hq as [-> ->].
    rewrite forward_branch in Hw.
    apply inside_inv in Hw as (inner & Hw & ->).
    apply Write_sound in Hw as [_ Hin].
    rewrite (picks_cons _ _ _ _ Hlq). split.
    + cbn [app]. by rewrite !fmap_cons, Htop.
    + cbn [app].
      change (Call (EWrite q ctxn v) inner :: tr2)
        with ([Call (EWrite q ctxn v) inner] ++ tr2).
      rewrite all_entries_app, all_entries_call.
      apply Forall_app. split; [by constructor|done].
Qed.

(** Whenever [WriteEvery] returns, whatever the fuel, it has called
    [Write] on the subscribers at the forwarding positions, in order. *)
Lemma WriteEvery_sound fuel p ctx v finder s tr s' :
  WriteEvery fuel p ctx v finder s = Ok tt tr s' ->
  top <$> tr =
    (fun q => EWrite q (mkContxt (Ctx ctx) p) v) <$>
      picks (subscribers s p)
            (forwarded_positions (default defaultFinder finder)
                                 (length (subscribers s p))) /\
  Forall (fun e => is_write_call e = true) (all_entries tr).
Proof.
  destruct fuel as [|fuel]; [done|]. unfold WriteEvery.
  intros (node & tr1 & s1 & tr2 & Hd & Hl & ->)%bind_inv.
  apply deref_inv in Hd as (Hp & -> & ->). unfold subscribers. rewrite Hp.
  unfold for_up in Hl. cbn [app].
  eapply (WriteEvery_loop_inv fuel (default defaultFinder finder)).
  destruct finder; exact Hl.
Qed.

Lemma bounded_below_mono depth : forall depth' s p,
  depth <= depth' ->
  bounded_below depth s p = true -> bounded_below depth' s p = true.
Proof.
  induction depth as [|depth IH]; intros depth' s p Hle; [done|].
  destruct depth' as [|depth']; [lia|]. cbn [bounded_below].
  destruct (heap s !! p) as [node|]; [|done].
  rewrite !forallb_forall. intros Hall q Hq.
  apply (IH depth'); [lia|]. by apply Hall.
Qed.

(** ** Read *)

Lemma Read_frame fuel : forall p v ctxs s tr s',
  Read fuel p v ctxs s = Ok tt tr s' -> s' = s.
Proof.
  induction fuel as [|fuel IH]; intros p v ctxs s tr s'; [done|].
  cbn [Read]. cbv zeta.
  intros (node & tr1 & s1 & tr2 & Hd & Hr & _)%bind_inv.
  apply deref_inv in Hd as (_ & _ & ->).
  assert (forall cmds s0 tr0 s2,
            forM_ (perform (Read fuel) (Write fuel) (WriteEvery fuel)) cmds s0
              = Ok tt tr0 s2 -> s2 = s0) as Hrun.
  { intros cmds s0 tr0 s2. apply forM__frame.
    intros c s3 tr3 s4 _. destruct c; cbn [perform].
    - intros (inner & Hw & _)%inside_inv. by eapply Write_frame.
    - intros (inner & Hw & _)%inside_inv. by eapply WriteEvery_frame.
    - intros (inner & Hw & _)%inside_inv. by eapply IH.
    - by intros [= _ <-].
    - done. }
  destruct (as_error v), (async node);
    try (by revert Hr; intros [= _ <-]);
    apply inside_inv in Hr as (inner & Hr & _); by eapply Hrun.
Qed.

(** On a synchronous node [Read] is one inline call of the handler, with
    the arguments given by the classification of the value. *)
Lemma Read_sync_unfold fuel p v ctxs s node :
  heap s !! p = Some node -> async node = false ->
  Read (S fuel) p v ctxs s =
  inside (EOp p (read_ctx p ctxs) (fst (dispatch v)) (snd (dispatch v)))
         (forM_ (perform (Read fuel) (Write fuel) (WriteEvery fuel))
                (op node (read_ctx p ctxs) (fst (dispatch v)) (snd (dispatch v))))
         s.
Proof.
  intros Hp Hsync. cbn [Read]. cbv zeta.
  rewrite (bind_Ok _ _ _ _ _ _ (deref_Some _ _ _ Hp)).
  unfold dispatch, read_ctx. rewrite Hsync.
  destruct (as_error v); cbn [fst snd]; by destruct (inside _ _ s).
Qed.


(** A handler body made of calm commands runs to its end, making its
    calls in order. *)
Lemma run_calm fuel cmds s :
  forallb (calm fuel s) cmds = true ->
  exists tr,
    forM_ (perform (Read fuel) (Write fuel) (WriteEvery fuel)) cmds s
      = Ok tt tr s /\
    top <$> tr = cmd_entry <$> cmds.
Proof.
  intros Hcalm. rewrite forallb_forall in Hcalm.
  destruct (forM__calls (perform (Read fuel) (Write fuel) (WriteEvery fuel))
              cmd_entry (fun _ => True) cmds s) as (tr & Hrun & Htop & _).
  - intros c Hc%list_elem_of_In%Hcalm.
    assert (forall l : list entry, Forall (fun _ => True) l) as Htrue.
    { intros l. by apply Forall_forall. }
    destruct c; cbn [perform cmd_entry calm] in *; [| |done| |done].
    + destruct (Write_total fuel target m v s Hc) as (inner & Hw & _).
      exists inner. unfold inside. by rewrite Hw.
    + destruct (WriteEvery_total fuel target m v finder s Hc) as (inner & Hw & _).
      exists inner. unfold inside. by rewrite Hw.
    + by exists [].
  - by exists tr.
Qed.

(** A loop whose body leaves the state alone and makes exactly one call
    per element: the calls match the elements one to one, in order. *)
Lemma forM__each {A} (body : A -> M unit) (Rel : A -> call -> Prop)
    (l : list A) s :
  (forall x, x ∈ l -> exists c, body x s = Ok tt [c] s /\ Rel x c) ->
  exists tr, forM_ body l s = Ok tt tr s /\ Forall2 Rel l tr.
Proof.
  induction l as [|x l IH]; intros Hbody.
  - exists []. split; [done|constructor].
  - destruct (Hbody x) as (c & Hx & Hc); [by left|].
    destruct IH as (tr & Hl & Hall).
    { intros y Hy. apply Hbody. by right. }
    exists (c :: tr). cbn [forM_].
    rewrite (bind_Ok _ _ _ _ _ _ Hx), Hl. split; [done|by constructor].
Qed.

(** ** The dispatcher: statements of the specification *)

(** C3: on a graph that is acyclic below [p], [Write(ctx, v)] returns with
    the state untouched, having called the [Write] entry point of every
    registered subscriber, in registration order, with the value [v]
    (whether it is an error or not) and a context whose surface is [p];
    nowhere in the whole fan-out is a handler invoked, inline or on a
    goroutine.  The same holds of every call of [Write] that returns,
    with whatever fuel. *)
Theorem Write_fans_out fuel p ctx v s :
  bounded_below fuel s p = true ->
  (exists tr,
     Write fuel p ctx v s = Ok tt tr s /\
     top <$> tr =
       (fun q => EWrite q (mkContxt (Ctx ctx) p) v) <$> subscribers s p /\
     Forall (fun e => is_handler_call e = false) (all_entries tr)) /\
  (forall fuel' tr' s',
     Write fuel' p ctx v s = Ok tt tr' s' ->
     s' = s /\
     top <$> tr' =
       (fun q => EWrite q (mkContxt (Ctx ctx) p) v) <$> subscribers s p /\
     Forall (fun e => is_handler_call e = false) (all_entries tr')).
Proof.
  intros Hb. split.
  - destruct (Write_total fuel p ctx v s Hb) as (tr & Hw & Htop & Hall).
    exists tr. split; [done|]. split; [done|].
    eapply Forall_impl; [exact Hall|]. apply is_write_not_handler.
  - intros fuel' tr' s' Hw. split; [by eapply Write_frame|].
    apply Write_sound in Hw as [Htop Hall]. split; [done|].
    eapply Forall_impl; [exact Hall|]. apply is_write_not_handler.
Qed.

Lemma Write_fans_out_witness :
  bounded_below 3 fan 0 = true /\
  exists tr,
    Write 3 0 (mkContxt (Carrier 7) 9) (VError "boom") fan = Ok tt tr fan /\
    top <$> tr =
      (fun q => EWrite q (mkContxt (Carrier 7) 0) (VError "boom")) <$> [1; 2; 3] /\
    Forall (fun e => is_handler_call e = false) (all_entries tr).
Proof.
  split; [reflexivity|].
  apply (Write_fans_out 3 0 (mkContxt (Carrier 7) 9) (VError "boom") fan).
  reflexivity.
Defined.

(** The example of the specification: a relay with one recording
    subscriber, read with [42]: the subscriber's [Write] is called once
    with [42], its handler is not. *)
Example Read_relay_example :
  Read 3 0 (VInt 42) [] duo =
  Ok tt [Call (EOp 0 (mkContxt Background 0) None (VInt 42))
           [Call (EWrite 0 (mkContxt Background 0) (VInt 42))
              [Call (EWrite 1 (mkContxt Background 0) (VInt 42)) []];
            Call (ENote 1) []]]
     duo.
Proof. reflexivity. Qed.

(** Fan-out over a cycle never returns, whatever the fuel. *)
Lemma Write_knot_diverges fuel ctx v : Write fuel 0 ctx v knot = OutOfFuel.
Proof.
  revert ctx. induction fuel as [|fuel IH]; intros ctx; [done|].
  rewrite (Write_unfold _ _ _ _ knot (node_of 0 relay [0])) by done.
  cbn [forM_ subs node_of]. unfold bind, inside. by rewrite IH.
Qed.

(** C2: on a graph that is acyclic below [p], [WriteEvery(ctx, v, finder)]
    with [N] subscribers returns with the state untouched; with [f] the
    finder (the identity on the index when none is given) it visits the
    positions [0..N-1] in order and calls [Write] on the subscriber at
    position [i] exactly when [0 < f(i, N) < N].  With no finder these are
    the positions [1..N-1]: every subscriber but the first.  The same
    calls are made by every call of [WriteEvery] that returns, with
    whatever fuel. *)
Theorem WriteEvery_forwards fuel p ctx v finder s :
  bounded_below fuel s p = true ->
  let f := default defaultFinder finder in
  let l := subscribers s p in
  let calls :=
    (fun q => EWrite q (mkContxt (Ctx ctx) p) v) <$>
      picks l (forwarded_positions f (length l)) in
  (exists tr, WriteEvery fuel p ctx v finder s = Ok tt tr s /\ top <$> tr = calls) /\
  (forall fuel' tr' s',
     WriteEvery fuel' p ctx v finder s = Ok tt tr' s' ->
     s' = s /\ top <$> tr' = calls) /\
  (forall i, (i ∈ forwarded_positions f (length l)) <->
             i < length l /\
             (0 < f (Z.of_nat i) (Z.of_nat (length l)) < Z.of_nat (length l))%Z) /\
  (finder = None ->
     forwarded_positions f (length l) = seq 1 (length l - 1) /\
     (0 ∉ forwarded_positions f (length l)) /\
     calls = (fun q => EWrite q (mkContxt (Ctx ctx) p) v) <$> drop 1 l).
Proof.
  intros Hb f l calls.
  destruct (WriteEvery_total fuel p ctx v finder s Hb) as (tr & Hw & Htop & _).
  split; [by exists tr|]. split; [|split].
  - intros fuel' tr' s' Hw'. split; [by eapply WriteEvery_frame|].
    by apply WriteEvery_sound in Hw' as [Htop' _].
  - intros i. unfold forwarded_positions.
    rewrite list_elem_of_filter, elem_of_seq. lia.
  - intros ->. subst calls f. cbn [default].
    rewrite forwarded_positions_default. split; [done|]. split.
    + rewrite elem_of_seq. lia.
    + by rewrite picks_tail.
Qed.

Lemma WriteEvery_forwards_witness :
  bounded_below 3 fan 0 = true /\
  exists tr,
    WriteEvery 3 0 (mkContxt Background 9) (VInt 42) None fan = Ok tt tr fan /\
    top <$> tr = [EWrite 2 (mkContxt Background 0) (VInt 42);
                  EWrite 3 (mkContxt Background 0) (VInt 42)].
Proof.
  split; [reflexivity|].
  destruct (WriteEvery_forwards 3 0 (mkContxt Background 9) (VInt 42) None fan)
    as [(tr & Hrun & Htop) _]; [reflexivity|].
  exists tr. split; [exact Hrun|]. exact Htop.
Defined.

(** The subscriber that receives the value is the one at the visited
    position, not the one at [newIndex]: a finder that answers [1]
    everywhere reaches the first subscriber too. *)
Example WriteEvery_constant_finder :
  WriteEvery 3 0 (mkContxt Background 0) (VInt 42) (Some (fun _ _ => 1%Z)) fan =
  Ok tt [Call (EWrite 1 (mkContxt Background 0) (VInt 42))
           [Call (EWrite 3 (mkContxt Background 1) (VInt 42)) []];
         Call (EWrite 2 (mkContxt Background 0) (VInt 42)) [];
         Call (EWrite 3 (mkContxt Background 0) (VInt 42)) []]
     fan.
Proof. reflexivity. Qed.

(** C6: on a synchronous node whose handler body is calm for each of the
    values [vs], the [N] calls [Read(v)] made one after the other all
    return with the state untouched and make exactly [N] handler calls,
    one per value and in the order of the values; each is made inline,
    with the context of the node, with [(error = v, payload = nil)] when
    [v] is an error and [(error = nil, payload = v)] otherwise, and the
    body has run to its end when [Read] returns.  Whatever the handler,
    a [Read] that returns has made exactly one handler call, this one. *)
Theorem Read_sync_invokes_handler fuel p node vs ctxs s :
  heap s !! p = Some node ->
  async node = false ->
  forallb (fun v => forallb (calm fuel s)
                      (op node (read_ctx p ctxs) (fst (dispatch v)) (snd (dispatch v))))
          vs = true ->
  (exists tr,
     ReadEach (S fuel) p vs ctxs s = Ok tt tr s /\
     Forall2 (fun v c =>
                exists inner,
                  c = Call (EOp p (read_ctx p ctxs) (fst (dispatch v)) (snd (dispatch v)))
                           inner /\
                  Read (S fuel) p v ctxs s = Ok tt [c] s /\
                  top <$> inner =
                    cmd_entry <$> op node (read_ctx p ctxs) (fst (dispatch v))
                                     (snd (dispatch v)))
             vs tr /\
     length tr = length vs) /\
  (forall fuel' v tr s',
     Read fuel' p v ctxs s = Ok tt tr s' ->
     s' = s /\
     exists inner,
       tr = [Call (EOp p (read_ctx p ctxs) (fst (dispatch v)) (snd (dispatch v)))
                  inner]).
Proof.
  intros Hp Hsync Hcalm. split.
  - rewrite forallb_forall in Hcalm.
    destruct (forM__each (fun v => Read (S fuel) p v ctxs)
                (fun v c =>
                   exists inner,
                     c = Call (EOp p (read_ctx p ctxs) (fst (dispatch v))
                                   (snd (dispatch v))) inner /\
                     Read (S fuel) p v ctxs s = Ok tt [c] s /\
                     top <$> inner =
                       cmd_entry <$> op node (read_ctx p ctxs) (fst (dispatch v))
                                        (snd (dispatch v)))
                vs s) as (tr & Hrun & Hall).
    + intros v Hv%list_elem_of_In%Hcalm.
      destruct (run_calm _ _ _ Hv) as (inner & Hinner & Htop).
      assert (Read (S fuel) p v ctxs s =
              Ok tt [Call (EOp p (read_ctx p ctxs) (fst (dispatch v))
                               (snd (dispatch v))) inner] s) as Hread.
      { rewrite (Read_sync_unfold _ _ _ _ _ _ Hp Hsync).
        unfold inside. by rewrite Hinner. }
      eexists. split; [exact Hread|]. by exists inner.
    + exists tr. split; [exact Hrun|]. split; [done|].
      symmetry. by eapply Forall2_length.
  - intros [|fuel'] v tr s' Hread; [done|].
    split; [by eapply Read_frame|].
    rewrite (Read_sync_unfold _ _ _ _ _ _ Hp Hsync) in Hread.
    apply inside_inv in Hread as (inner & _ & ->). by exists inner.
Qed.

Lemma Read_sync_invokes_handler_witness :
  heap fan !! 0 = Some (node_of 0 relay [1; 2; 3]) /\
  async (node_of 0 relay [1; 2; 3]) = false /\
  exists tr,
    ReadEach 4 0 [VInt 1; VError "bad"; VInt 3] [] fan = Ok tt tr fan /\
    top <$> tr = [EOp 0 (mkContxt Background 0) None (VInt 1);
                  EOp 0 (mkContxt Background 0) (Some "bad") VNil;
                  EOp 0 (mkContxt Background 0) None (VInt 3)].
Proof.
  split; [reflexivity|]. split; [reflexivity|].
  destruct (Read_sync_invokes_handler 3 0 (node_of 0 relay [1; 2; 3])
              [VInt 1; VError "bad"; VInt 3] [] fan)
    as [(tr & Hrun & Hall & _) _]; [reflexivity..|].
  exists tr. split; [exact Hrun|].
  repeat match goal with
         | H : Forall2 _ _ _ |- _ => inversion H; clear H; subst
         end.
  repeat match goal with
         | H : exists _, _ |- _ => destruct H as (? & -> & _)
         end.
  reflexivity.
Defined.

(** ** Registration *)

Lemma subscribers_alloc s new u q :
  subs new = [] ->
  subscribers (mkState (heap s ++ [new]) u) q = subscribers s q.
Proof.
  intros Hnew. unfold subscribers. cbn [heap].
  destruct (decide (q < length (heap s))) as [Hlt|Hge].
  - by rewrite lookup_app_l.
  - rewrite lookup_app_r by lia.
    rewrite (lookup_ge_None_2 (heap s) q) by lia.
    destruct (q - length (heap s)) as [|k]; [done|].
    by destruct k.
Qed.

Lemma subscribers_subscribe s p self n q :
  heap s !! p = Some self ->
  subscribers
    (mkState (<[p := mkPub (uuid self) (op self) (root self) (async self)
                           (subs self ++ [n])]> (heap s)) (uuids s)) q
  = subscribers s q ++ (if decide (q = p) then [n] else []).
Proof.
  intros Hp. unfold subscribers. cbn [heap]. case_decide as Hq.
  - subst q. rewrite list_lookup_insert_eq by (by eapply lookup_lt_Some).
    by rewrite Hp.
  - rewrite list_lookup_insert_ne by done. by rewrite app_nil_r.
Qed.

Lemma subscribe_inv p n s tr s' :
  subscribe p n s = Ok tt tr s' ->
  tr = [] /\
  forall q, subscribers s' q =
            subscribers s q ++ (if decide (q = p) then [n] else []).
Proof.
  unfold subscribe. destruct (heap s !! p) as [self|] eqn:Hp; [|done].
  intros [= <- <-]. split; [done|]. intros q.
  by apply subscribers_subscribe.
Qed.

Section RegistrationFacts.
Context `{R : Reflection}.

(** Resolving the argument never touches a subscriber list, and changes
    nothing at all when it gives up. *)
Lemma resolve_sound b a s r tr s1 :
  resolve (fun h => alloc h b) a s = Ok r tr s1 ->
  (forall q, subscribers s1 q = subscribers s q) /\
  (r = None -> s1 = s).
Proof.
  destruct a as [n|h|dh|dh|x]; cbn [resolve];
    unfold bind, emit, ret, index_at, panic, alloc; cbn.
  - intros [= <- _ <-]. by split.
  - intros [= <- _ <-]. split; [|done]. intros q. by apply subscribers_alloc.
  - intros [= <- _ <-]. split; [|done]. intros q. by apply subscribers_alloc.
  - intros [= <- _ <-]. split; [|done]. intros q. by apply subscribers_alloc.
  - destruct (IsFuncType x);
      destruct (GetFuncArgumentsType x) as [|a0 [|a1 [|a2 [|a3 l]]]];
      simpl; try (intros [= <- _ <-]; by split).
    destruct (CanSetForType ctxType a0) as [c0 ?]; destruct c0;
      simpl; try (intros [= <- _ <-]; by split).
    destruct (CanSetForType errorType a1) as [c1 ?]; destruct c1;
      simpl; try (intros [= <- _ <-]; by split).
    intros [= <- _ <-]. split; [|done]. intros q. by apply subscribers_alloc.
Qed.

(** A registration that returns a node has appended it, last, to the
    subscriber list of the receiver and to no other list; one that returns
    nil has changed nothing. *)
Lemma register_sound b p a s r tr s' :
  register (fun h => alloc h b) p a s = Ok r tr s' ->
  (forall q, subscribers s' q =
             subscribers s q ++
             match r with
             | Some n => if decide (q = p) then [n] else []
             | None => []
             end) /\
  (r = None -> s' = s).
Proof.
  unfold register.
  intros (r1 & tr1 & s1 & tr2 & Hres & Hk & _)%bind_inv.
  apply resolve_sound in Hres as [Hsubs Hnone].
  destruct r1 as [n|].
  - apply bind_inv in Hk as ([] & tr3 & s3 & tr4 & Hsub & Hret & _).
    apply ret_inv in Hret as (-> & _ & ->).
    apply subscribe_inv in Hsub as [_ Hsub]. split; [|done].
    intros q. by rewrite Hsub, Hsubs.
  - apply ret_inv in Hk as (-> & _ & ->). split.
    + intros q. by rewrite app_nil_r, Hsubs.
    + intros _. by apply Hnone.
Qed.

Lemma invoke_sound fuel c s r tr s' :
  invoke fuel c s = Ok r tr s' ->
  (forall q, subscribers s' q =
             subscribers s q ++
             match registers c, r with
             | Some p, Some n => if decide (p = q) then [n] else []
             | _, _ => []
             end) /\
  (registers c = None -> s' = s).
Proof.
  assert (forall p, (forall q, subscribers s' q =
             subscribers s q ++
             match r with
             | Some n => if decide (q = p) then [n] else []
             | None => []
             end) /\ (r = None -> s' = s) ->
           (forall q, subscribers s' q =
             subscribers s q ++
             match r with
             | Some n => if decide (p = q) then [n] else []
             | None => []
             end) /\ (@None ptr = Some p -> s' = s)) as Hreg.
  { intros p [H _]. split; [|done]. intros q. rewrite H.
    destruct r; [|done]. by repeat case_decide. }
  assert (s' = s ->
          (forall q, subscribers s' q = subscribers s q ++ []) /\
          (@None ptr = None -> s' = s)) as Hsame.
  { intros ->. split; [|done]. intros q. by rewrite app_nil_r. }
  destruct c; cbn [invoke registers];
    try (intros H%register_sound; destruct (Hreg p H) as [H1 _];
         split; [exact H1|done]).
  - intros ([] & tr1 & s1 & tr2 & Hop & Hret & _)%bind_inv.
    apply ret_inv in Hret as (-> & _ & ->). apply Hsame. by eapply Read_frame.
  - intros ([] & tr1 & s1 & tr2 & Hop & Hret & _)%bind_inv.
    apply ret_inv in Hret as (-> & _ & ->). apply Hsame. by eapply Write_frame.
  - intros ([] & tr1 & s1 & tr2 & Hop & Hret & _)%bind_inv.
    apply ret_inv in Hret as (-> & _ & ->). apply Hsame. by eapply WriteEvery_frame.
  - intros (u & tr1 & s1 & tr2 & Hop & Hret & _)%bind_inv.
    apply ret_inv in Hret as (-> & _ & ->). apply Hsame.
    unfold UUID in Hop.
    apply bind_inv in Hop as (node & tr3 & s3 & tr4 & Hd & Hret & _).
    apply deref_inv in Hd as (_ & _ & ->). by apply ret_inv in Hret as (_ & _ & ->).
Qed.

(** Over a sequence of method calls the subscriber list of every node
    grows at its end by the nodes the registrations on it returned. *)
Lemma session_sound fuel cs s rs tr s' :
  session fuel cs s = Ok rs tr s' ->
  length rs = length cs /\
  (forall q, subscribers s' q = subscribers s q ++ registered_on q cs rs) /\
  (forall q, subscribers s q `prefix_of` subscribers s' q) /\
  (Forall (fun c => registers c = None) cs -> s' = s).
Proof.
  revert s rs tr s'. induction cs as [|c cs IH]; intros s rs tr s'.
  - intros (-> & _ & ->)%ret_inv. split; [done|]. split.
    + intros q. unfold registered_on. simpl. by rewrite app_nil_r.
    + done.
  - cbn [session].
    intros (r & tr1 & s1 & tr2 & Hc & Hk & _)%bind_inv.
    apply bind_inv in Hk as (rs' & tr3 & s2 & tr4 & Hcs & Hret & _).
    apply ret_inv in Hret as (-> & _ & ->).
    apply invoke_sound in Hc as [Hc Hc0].
    apply IH in Hcs as (Hlen & Hcs & _ & Hcs0).
    assert (forall q, subscribers s2 q =
                      subscribers s q ++ registered_on q (c :: cs) (r :: rs'))
      as Hall.
    { intros q. rewrite Hcs, Hc, <- app_assoc. f_equal.
      unfold registered_on. cbn [zip zip_with omap list_omap fst snd].
      destruct (registers c) as [p|]; [|done].
      destruct r as [n|]; [|done]. by case_decide. }
    split; [simpl; by rewrite Hlen|]. split; [exact Hall|]. split.
    + intros q. rewrite Hall. by apply prefix_app_r.
    + intros [Hc1 Hcs1]%Forall_cons. rewrite Hcs0 by done. by apply Hc0.
Qed.

(** The structural adapter gives up on a rejected shape before it builds
    anything, whichever constructor it was to use. *)
Lemma resolve_rejected make x s :
  rejected x ->
  resolve make (ArgOther x) s =
  Ok None [Call (EPrintf ("Calling sync default" +:+ newline)) []] s.
Proof.
  unfold rejected. cbn [resolve]. unfold bind, emit, ret, index_at, panic.
  destruct (IsFuncType x) eqn:Hf;
    destruct (GetFuncArgumentsType x) as [|a0 [|a1 [|a2 [|a3 l]]]] eqn:Hargs;
    simpl; try done.
  destruct (CanSetForType ctxType a0) as [c0 ?] eqn:H0; destruct c0;
    simpl; [|done].
  destruct (CanSetForType errorType a1) as [c1 ?] eqn:H1; destruct c1;
    simpl; [|done].
  intros [?|[?|[(a & [= <-] & Ha)|(a & [= <-] & Ha)]]]; try done.
  - by rewrite H0 in Ha.
  - by rewrite H1 in Ha.
Qed.

(** Conversely the adapter gives up on a rejected shape only. *)
Lemma resolve_None_rejected b x s tr s' :
  resolve (fun h => alloc h b) (ArgOther x) s = Ok None tr s' -> rejected x.
Proof.
  unfold rejected. cbn [resolve]. unfold bind, emit, ret, index_at, panic, alloc.
  destruct (IsFuncType x) eqn:Hf; [|by left].
  destruct (GetFuncArgumentsType x) as [|a0 [|a1 [|a2 [|a3 l]]]] eqn:Hargs;
    simpl; try (intros _; right; left; simpl; lia).
  destruct (CanSetForType ctxType a0) as [c0 ?] eqn:H0; destruct c0; simpl.
  2:{ intros _. right. right. left. exists a0. by rewrite H0. }
  destruct (CanSetForType errorType a1) as [c1 ?] eqn:H1; destruct c1; simpl.
  2:{ intros _. right. right. right. exists a1. by rewrite H1. }
  done.
Qed.

Lemma adapter_rejects_both p x s :
  rejected x ->
  Signal p (ArgOther x) s =
    Ok None [Call (EPrintf ("Calling sync default" +:+ newline)) []] s /\
  AsyncSignal p (ArgOther x) s =
    Ok None [Call (EPrintf ("Calling sync default" +:+ newline)) []] s.
Proof.
  intros Hrej. unfold Signal, AsyncSignal, register.
  split.
  - by rewrite (bind_Ok _ _ _ _ _ _ (resolve_rejected Sync x s Hrej)).
  - by rewrite (bind_Ok _ _ _ _ _ _ (resolve_rejected ASync x s Hrej)).
Qed.

(** C4: for an argument [x] that reaches the structural adapter, [Signal(x)]
    and [AsyncSignal(x)] return nil (and neither panic nor change the
    state) whenever [x] is not a callable, or does not take exactly three
    parameters, or its first parameter cannot hold a [Ctx], or its second
    cannot hold an [error]. *)
Theorem adapter_rejects p x s :
  rejected x ->
  Signal p (ArgOther x) s =
    Ok None [Call (EPrintf ("Calling sync default" +:+ newline)) []] s /\
  AsyncSignal p (ArgOther x) s =
    Ok None [Call (EPrintf ("Calling sync default" +:+ newline)) []] s.
Proof. apply adapter_rejects_both. Qed.

(** Nil is returned for the rejected shapes only. *)
Lemma nil_only_when_rejected p x s tr s' :
  Signal p (ArgOther x) s = Ok None tr s' \/
  AsyncSignal p (ArgOther x) s = Ok None tr s' ->
  rejected x.
Proof.
  unfold Signal, AsyncSignal, register.
  intros [H|H];
    apply bind_inv in H as ([n|] & tr1 & s1 & tr2 & Hres & Hk & _);
    try (by eapply resolve_None_rejected);
    apply bind_inv in Hk as ([] & ? & ? & ? & _ & Hret & _);
    by apply ret_inv in Hret as (? & _).
Qed.

(** C10: a call of [Signal] or [AsyncSignal] on an argument whose shape
    the structural adapter rejects returns nil, and a call that returns
    nil leaves the state, and with it every subscriber list, exactly as it
    was: the adapter gives up before any node is built and before the
    append, so no entry is added. *)
Theorem nil_registration_adds_nothing p a s r tr s' :
  Signal p a s = Ok r tr s' \/ AsyncSignal p a s = Ok r tr s' ->
  (forall x, a = ArgOther x -> rejected x -> r = None) /\
  (r = None -> s' = s /\ forall q, subscribers s' q = subscribers s q).
Proof.
  intros H. split.
  - intros x -> Hrej.
    destruct (adapter_rejects_both p x s Hrej) as [Hs Ha].
    destruct H as [H|H]; congruence.
  - intros ->. destruct H as [H|H]; apply register_sound in H as [_ H];
      rewrite H by done; by split.
Qed.

(** C5: the handler [WrapError eh], which is also what [SignalE],
    [AsyncSignalE] and the [ErrorHandler] case of [Signal] and
    [AsyncSignal] install, calls [eh] with the absent error and does
    nothing else when it is given no error, and when it is given an error
    does not call [eh] but makes the single call [Write(m, payload)] on
    the node of its context.  A synchronous node [n] built from it
    therefore runs the body of [eh] when it reads a value that is not an
    error, and fans the (absent) payload out through its own [Write] when
    it reads an error. *)
Theorem WrapError_routes (eh : ErrorHandler) n node fuel ctxs s :
  heap s !! n = Some node ->
  op node = WrapError eh ->
  async node = false ->
  (forall m data, WrapError eh m None data = eh m None) /\
  (forall m e data, WrapError eh m (Some e) data = [CmdWrite (RW m) m data]) /\
  (forall p, Signal p (ArgErrorHandler eh) = SignalE p eh /\
             AsyncSignal p (ArgErrorHandler eh) = AsyncSignalE p eh) /\
  (forall v, as_error v = None ->
     Read (S fuel) n v ctxs s =
     inside (EOp n (read_ctx n ctxs) None v)
            (forM_ (perform (Read fuel) (Write fuel) (WriteEvery fuel))
                   (eh (read_ctx n ctxs) None)) s) /\
  (forall e,
     Read (S fuel) n (VError e) ctxs s =
     inside (EOp n (read_ctx n ctxs) (Some e) VNil)
            (inside (EWrite n (read_ctx n ctxs) VNil)
                    (Write fuel n (read_ctx n ctxs) VNil)) s).
Proof.
  intros Hn Hop Hsync. split; [done|]. split; [done|]. split; [done|]. split.
  - intros v Hv. rewrite (Read_sync_unfold _ _ _ _ _ _ Hn Hsync).
    unfold dispatch. rewrite Hv, Hop. reflexivity.
  - intros e. rewrite (Read_sync_unfold _ _ _ _ _ _ Hn Hsync).
    unfold dispatch. cbn [as_error fst snd]. rewrite Hop.
    cbn [WrapError forM_ perform RW read_ctx]. unfold inside, bind, ret.
    destruct (Write fuel n _ VNil s) as [[] tr1 s1| |]; reflexivity.
Qed.

(** ** Chain builders *)

(** Registering an existing node appends it and returns it. *)
Lemma Signal_node p n s self :
  heap s !! p = Some self ->
  Signal p (ArgNode n) s =
  Ok (Some n) []
     (mkState (<[p := mkPub (uuid self) (op self) (root self) (async self)
                            (subs self ++ [n])]> (heap s)) (uuids s)).
Proof.
  intros Hp. unfold Signal, register, resolve, bind, ret, subscribe.
  by rewrite Hp.
Qed.

(** The loop of [Lift] over the positions [positions >= 1]. *)
Lemma Lift_loop (rws : list ptr) : forall (positions : list nat) s,
  (forall r, r ∈ rws -> r < length (heap s)) ->
  (forall i, i ∈ positions -> 1 <= i < length rws) ->
  exists s',
    forM_ (fun index =>
             if (index <? 1)%Z then ret tt
             else
               let* node := index_at rws index in
               let* pnode := index_at rws (index - 1) in
               Signal pnode (ArgNode node) ;; ret tt)
          (Z.of_nat <$> positions) s = Ok tt [] s' /\
    length (heap s') = length (heap s) /\
    forall q, subscribers s' q =
              subscribers s q ++
              omap (fun i => if decide (rws !! (i - 1) = Some q)
                             then rws !! i else None) positions.
Proof.
  set (body := fun index : Z => _).
  induction positions as [|i positions IH]; intros s Hvalid Hpos.
  - exists s. split; [done|]. split; [done|]. intros q. by rewrite app_nil_r.
  - destruct (Hpos i) as [Hi1 Hi2]; [by left|].
    destruct (lookup_lt_is_Some_2 rws i) as [node Hnode]; [lia|].
    destruct (lookup_lt_is_Some_2 rws (i - 1)) as [pnode Hpnode]; [lia|].
    destruct (lookup_lt_is_Some_2 (heap s) pnode) as [self Hself].
    { apply Hvalid. by eapply list_elem_of_lookup_2. }
    set (s1 := mkState (<[pnode := mkPub (uuid self) (op self) (root self)
                            (async self) (subs self ++ [node])]> (heap s))
                       (uuids s)).
    assert (body (Z.of_nat i) s = Ok tt [] s1) as Hbody.
    { unfold body. destruct (Z.ltb_spec (Z.of_nat i) 1); [lia|].
      rewrite (bind_Ok _ _ _ _ _ _ (index_at_nat _ _ _ _ Hnode)).
      replace (Z.of_nat i - 1)%Z with (Z.of_nat (i - 1)) by lia.
      rewrite (bind_Ok _ _ _ _ _ _ (index_at_nat _ _ _ _ Hpnode)).
      by rewrite (bind_Ok _ _ _ _ _ _ (Signal_node _ _ _ _ Hself)). }
    destruct (IH s1) as (s' & Hrun & Hlen & Hsubs).
    { intros r Hr. subst s1. cbn [heap]. rewrite length_insert. by apply Hvalid. }
    { intros j Hj. apply Hpos. by right. }
    exists s'. rewrite fmap_cons. cbn [forM_].
    rewrite (bind_Ok _ _ _ _ _ _ Hbody), Hrun. split; [done|]. split.
    + rewrite Hlen. subst s1. cbn [heap]. by rewrite length_insert.
    + intros q. rewrite Hsubs. subst s1.
      rewrite (subscribers_subscribe _ _ _ _ _ Hself), <- app_assoc. f_equal.
      cbn [omap list_omap]. rewrite Hpnode, Hnode.
      repeat case_decide; simplify_eq; done.
Qed.

Lemma Lift_total (rws : list ptr) s :
  (forall r, r ∈ rws -> r < length (heap s)) ->
  exists s',
    Lift rws s = Ok tt [] s' /\
    forall q, subscribers s' q = subscribers s q ++ lift_targets rws q.
Proof.
  intros Hvalid. unfold Lift, for_up, lift_targets.
  destruct rws as [|r0 rws].
  - exists s. split; [done|]. intros q. by rewrite app_nil_r.
  - cbn [length seq]. rewrite fmap_cons. cbn [forM_].
    replace (S (length rws) - 1) with (length rws) by lia.
    destruct (Lift_loop (r0 :: rws) (seq 1 (length rws)) s Hvalid)
      as (s' & Hrun & _ & Hsubs).
    { intros i [? ?]%elem_of_seq. cbn [length]. lia. }
    exists s'. split; [|done].
    erewrite bind_Ok by reflexivity.
    match goal with
    | |- context [forM_ ?b ?l s] =>
        replace (forM_ b l s) with (@Ok unit tt [] s') by (symmetry; exact Hrun)
    end.
    done.
Qed.

(** What [Lift(a, b, c)] registers. *)
Lemma lift_targets_three a b c q :
  lift_targets [a; b; c] q =
  (if decide (a = q) then [b] else []) ++ (if decide (b = q) then [c] else []).
Proof.
  unfold lift_targets. cbn.
  repeat case_decide; simplify_eq; done.
Qed.

(** C7: on nodes that all exist, [Lift(nodes...)] returns, and has then
    appended to the subscriber list of every node [q], for each position
    [i] from [1] to [N-1] in turn, the node [nodes[i]] when [nodes[i-1]]
    is [q]; it changes no list otherwise.  For [Lift(a, b, c)]: [b] is
    appended to the subscribers of [a] and [c] to those of [b]. *)
Theorem Lift_chain (rws : list ptr) s :
  (forall r, r ∈ rws -> r < length (heap s)) ->
  exists s',
    Lift rws s = Ok tt [] s' /\
    (forall q, subscribers s' q = subscribers s q ++ lift_targets rws q) /\
    (forall a b c, rws = [a; b; c] ->
       forall q, subscribers s' q =
                 subscribers s q ++ (if decide (a = q) then [b] else [])
                                 ++ (if decide (b = q) then [c] else [])).
Proof.
  intros Hvalid. destruct (Lift_total rws s Hvalid) as (s' & Hrun & Hsubs).
  exists s'. split; [done|]. split; [done|].
  intros a b c -> q. by rewrite Hsubs, lift_targets_three.
Qed.

(** A loop whose body always comes back (normally or by a panic) and
    panics on the last element panics. *)
Lemma forM__ends_in_panic {A} (body : A -> M unit) (l : list A) (y : A) :
  (forall x s, body x s <> OutOfFuel) ->
  (forall s, body y s = Panic s) ->
  forall s, exists s', forM_ body (l ++ [y]) s = Panic s'.
Proof.
  intros Hback Hlast. induction l as [|x l IH]; intros s.
  - exists s. cbn [app forM_]. unfold bind. by rewrite Hlast.
  - cbn [app forM_]. unfold bind at 1.
    destruct (body x s) as [[] tr1 s1|s1|] eqn:Hx.
    + destruct (IH s1) as [s' ->]. by exists s'.
    + by exists s1.
    + by apply Hback in Hx.
Qed.

Lemma bind_back {A B} (m : M A) (k : A -> M B) s :
  m s <> OutOfFuel -> (forall a s1, k a s1 <> OutOfFuel) -> bind m k s <> OutOfFuel.
Proof.
  intros Hm Hk. unfold bind. destruct (m s) as [a tr s1|s1|]; [|done..].
  specialize (Hk a s1). by destruct (k a s1).
Qed.

Lemma index_at_back {A} (l : list A) i s : index_at l i s <> OutOfFuel.
Proof. unfold index_at. by repeat case_match. Qed.

Lemma Signal_node_back p n s : Signal p (ArgNode n) s <> OutOfFuel.
Proof.
  unfold Signal, register, resolve, subscribe, bind, ret.
  by destruct (heap s !! p).
Qed.

(** [DeLift] on one node or none does nothing. *)
Lemma DeLift_short (rws : list ptr) s :
  length rws <= 1 -> DeLift rws s = Ok tt [] s.
Proof.
  destruct rws as [|r0 [|r1 rws]]; cbn [length]; [done|done|lia].
Qed.

(** [DeLift] on two nodes or more panics: its last round, at index [0],
    reads [rws[-1]]. *)
Lemma DeLift_panics (rws : list ptr) s :
  2 <= length rws -> exists s', DeLift rws s = Panic s'.
Proof.
  intros Hlen. unfold DeLift, for_down.
  destruct rws as [|r0 [|r1 rws]]; cbn [length] in Hlen; [lia|lia|].
  set (l := r0 :: r1 :: rws). set (body := fun index : Z => _).
  replace (length l) with (S (S (length rws))) by done.
  change (seq 0 (S (S (length rws)))) with (0 :: seq 1 (S (length rws))).
  rewrite reverse_cons, fmap_app.
  apply forM__ends_in_panic.
  - intros index s0. unfold body.
    destruct (_ <=? _)%Z; [done|].
    apply bind_back; [apply index_at_back|intros pnode s1].
    apply bind_back; [apply index_at_back|intros node s2].
    apply bind_back; [apply Signal_node_back|by intros ? ?].
  - intros s0. unfold body.
    destruct (Z.leb_spec (Z.of_nat (length l) - 1) (Z.of_nat 0)) as [Hle|_].
    { subst l. cbn [length] in Hle. lia. }
    reflexivity.
Qed.

(** C1 (the code departs from it): [DeLift(a, b, c)] on three fresh nodes
    appends [a] to the subscribers of [b], never appends [b] to the
    subscribers of [c], and then panics instead of returning: its loop
    skips the index [N-1], pairs [rws[index]] with [rws[index-1]], and so
    reads [rws[-1]] in its last round. *)
Theorem DeLift_three_nodes_panics :
  exists s',
    DeLift [0; 1; 2] three_nodes = Panic s' /\
    subscribers s' 0 = [] /\
    subscribers s' 1 = [0] /\
    subscribers s' 2 = [].
Proof.
  eexists. split; [vm_compute; reflexivity|]. by vm_compute.
Qed.

End RegistrationFacts.

(** ** The statements at concrete inputs *)

Lemma adapter_rejects_witness :
  @rejected go_reflection (GFunc [TCtx; TError] recorder) /\
  @Signal go_reflection 0 (@ArgOther go_reflection (GFunc [TCtx; TError] recorder)) fan =
    Ok None [Call (EPrintf ("Calling sync default" +:+ newline)) []] fan /\
  @AsyncSignal go_reflection 0 (@ArgOther go_reflection (GFunc [TCtx; TError] recorder)) fan =
    Ok None [Call (EPrintf ("Calling sync default" +:+ newline)) []] fan.
Proof.
  assert (@rejected go_reflection (GFunc [TCtx; TError] recorder)) as Hrej.
  { right. left. simpl. lia. }
  split; [exact Hrej|].
  exact (@adapter_rejects go_reflection 0 (GFunc [TCtx; TError] recorder) fan Hrej).
Defined.

Lemma nil_registration_adds_nothing_witness :
  @rejected go_reflection (GInt 3) /\
  exists r tr s',
    @Signal go_reflection 0 (@ArgOther go_reflection (GInt 3)) fan = Ok r tr s' /\
    r = None /\ s' = fan /\ subscribers s' 0 = [1; 2; 3].
Proof.
  assert (@rejected go_reflection (GInt 3)) as Hrej by (left; reflexivity).
  split; [exact Hrej|].
  eexists _, _, _. split; [reflexivity|].
  destruct (@nil_registration_adds_nothing go_reflection 0
              (@ArgOther go_reflection (GInt 3)) fan None
              [Call (EPrintf ("Calling sync default" +:+ newline)) []] fan)
    as [Hnil Hsame]; [left; reflexivity|].
  split; [exact (Hnil (GInt 3) eq_refl Hrej)|].
  split; [exact (proj1 (Hsame eq_refl))|reflexivity].
Defined.

Lemma WrapError_routes_witness :
  heap guarded !! 0 = Some (node_of 0 (WrapError on_clear) [1]) /\
  Read 3 0 (VInt 5) [] guarded =
    Ok tt [Call (EOp 0 (mkContxt Background 0) None (VInt 5))
             [Call (ENote 7) []]] guarded /\
  Read 3 0 (VError "bad") [] guarded =
    Ok tt [Call (EOp 0 (mkContxt Background 0) (Some "bad") VNil)
             [Call (EWrite 0 (mkContxt Background 0) VNil)
                [Call (EWrite 1 (mkContxt Background 0) VNil) []]]] guarded.
Proof.
  split; [reflexivity|].
  destruct (@WrapError_routes go_reflection on_clear 0
              (node_of 0 (WrapError on_clear) [1]) 2 [] guarded)
    as (_ & _ & _ & Hdata & Herr); [reflexivity..|].
  split.
  - rewrite (Hdata (VInt 5)) by reflexivity. reflexivity.
  - rewrite (Herr "bad"). reflexivity.
Defined.

Lemma Lift_chain_witness :
  exists s',
    @Lift go_reflection [0; 1; 2] three_nodes = Ok tt [] s' /\
    subscribers s' 0 = [1] /\
    subscribers s' 1 = [2] /\
    subscribers s' 2 = [].
Proof.
  destruct (@Lift_chain go_reflection [0; 1; 2] three_nodes)
    as (s' & Hrun & _ & Habc).
  { intros r Hr. cbn.
    repeat (apply elem_of_cons in Hr as [->|Hr]; [lia|]).
    by apply elem_of_nil in Hr. }
  exists s'. split; [exact Hrun|].
  split; [|split]; rewrite (Habc 0 1 2 eq_refl); reflexivity.
Defined.

(** * Further properties of the dispatcher *)

(** ** Fan-out and cycles *)

(** When a loop whose body leaves the state alone returns, each round
    returned, from the state the loop started in. *)
Lemma forM__each_Ok {A} (body : A -> M unit) (l : list A) :
  (forall x s0 tr0 s1, x ∈ l -> body x s0 = Ok tt tr0 s1 -> s1 = s0) ->
  forall s tr s', forM_ body l s = Ok tt tr s' ->
    forall x, x ∈ l -> exists tr0, body x s = Ok tt tr0 s.
Proof.
  induction l as [|y l IH]; intros Hframe s tr s' Hrun x Hx.
  - by apply elem_of_nil in Hx.
  - cbn [forM_] in Hrun.
    apply bind_inv in Hrun as ([] & tr1 & s1 & tr2 & Hy & Hl & _).
    pose proof (Hframe y s tr1 s1 (list_elem_of_here _ _) Hy) as ->.
    apply elem_of_cons in Hx as [->|Hx]; [by exists tr1|].
    eapply IH; [|exact Hl|exact Hx].
    intros z s0 tr0 s2 Hz. apply Hframe. by right.
Qed.

(** [Write] returns only on a part of the graph that is acyclic within
    the fuel. *)
Lemma Write_Ok_bounded fuel : forall p ctx v s tr s',
  Write fuel p ctx v s = Ok tt tr s' -> bounded_below fuel s p = true.
Proof.
  induction fuel as [|fuel IH]; intros p ctx v s tr s' Hw; [done|].
  destruct (Write_valid _ _ _ _ _ _ _ Hw) as [node Hp].
  rewrite (Write_unfold _ _ _ _ _ _ Hp) in Hw. cbn [bounded_below].
  rewrite Hp. apply forallb_forall. intros q Hq%list_elem_of_In.
  eapply forM__each_Ok in Hw as [tr0 Hq0]; [| |exact Hq].
  - apply inside_inv in Hq0 as (inner & Hq0 & _). by eapply IH.
  - intros x s0 tr1 s1 _ (inner & Hx & _)%inside_inv. by eapply Write_frame.
Qed.

Lemma bounded_reaches s p q :
  reaches s p q ->
  forall n, bounded_below n s p = true ->
            exists m, m < n /\ bounded_below m s q = true.
Proof.
  induction 1 as [p q Hq|p q r Hq _ IH]; intros [|n] Hb; try done;
    cbn [bounded_below] in Hb; unfold subscribers in Hq;
    destruct (heap s !! p) as [node|]; try done;
    rewrite forallb_forall in Hb;
    apply list_elem_of_In, Hb in Hq.
  - exists n. split; [lia|done].
  - destruct (IH n Hq) as (m & Hm & Hr). exists m. split; [lia|done].
Qed.

Lemma cycle_unbounded s q :
  reaches s q q -> forall n, bounded_below n s q = false.
Proof.
  intros Hcycle n. induction (lt_wf n) as [n _ IH].
  destruct (bounded_below n s q) eqn:Hb; [|done].
  destruct (bounded_reaches _ _ _ Hcycle n Hb) as (m & Hm & Hq).
  by rewrite (IH m Hm) in Hq.
Qed.

(** A loop whose rounds never panic never panics. *)
Lemma forM__no_panic {A} (body : A -> M unit) (l : list A) s :
  (forall x s0 tr0 s1, x ∈ l -> body x s0 = Ok tt tr0 s1 -> s1 = s0) ->
  (forall x, x ∈ l -> forall s', body x s <> Panic s') ->
  forall s', forM_ body l s <> Panic s'.
Proof.
  induction l as [|x l IH]; intros Hframe Hsafe s'; [done|].
  cbn [forM_]. unfold bind.
  destruct (body x s) as [[] tr1 s1|s1|] eqn:Hx.
  - pose proof (Hframe x s tr1 s1 (list_elem_of_here _ _) Hx) as ->.
    specialize (IH (fun y s0 tr0 s2 Hy => Hframe y s0 tr0 s2 (list_elem_of_further _ _ _ Hy))
                   (fun y Hy => Hsafe y (list_elem_of_further _ _ _ Hy)) s').
    by destruct (forM_ body l s).
  - by destruct (Hsafe x (list_elem_of_here _ _) s1).
  - done.
Qed.

Lemma closed_subs s p node q :
  closed s = true -> heap s !! p = Some node -> q ∈ subs node ->
  q < length (heap s).
Proof.
  unfold closed. rewrite forallb_forall. intros Hc Hp Hq.
  apply list_elem_of_lookup_2, list_elem_of_In, Hc in Hp.
  rewrite forallb_forall in Hp.
  apply list_elem_of_In, Hp in Hq. by apply Nat.ltb_lt.
Qed.

(** On a graph without nil pointers [Write] never panics. *)
Lemma Write_no_panic fuel : forall p ctx v s s',
  closed s = true -> p < length (heap s) ->
  Write fuel p ctx v s <> Panic s'.
Proof.
  induction fuel as [|fuel IH]; intros p ctx v s s' Hc Hp; [done|].
  destruct (lookup_lt_is_Some_2 _ _ Hp) as [node Hnode].
  rewrite (Write_unfold _ _ _ _ _ _ Hnode).
  apply forM__no_panic.
  - intros x s0 tr1 s1 _ (inner & Hx & _)%inside_inv. by eapply Write_frame.
  - intros q Hq s1. unfold inside.
    pose proof (IH q (mkContxt (Ctx ctx) p) v s s1 Hc
                  (closed_subs _ _ _ _ Hc Hnode Hq)) as Hsafe.
    by destruct (Write fuel q _ v s).
Qed.

(** X1: when [p] lies on a cycle of subscriptions, or has a node that
    does among the nodes it reaches, [Write] on [p] never returns,
    whatever the fuel; on a graph without nil pointers it does not panic
    either, it only runs out of fuel: the fan-out recurses for ever. *)
Theorem Write_on_cycle_never_returns s p q :
  q = p \/ reaches s p q ->
  reaches s q q ->
  (forall fuel ctx v tr s', Write fuel p ctx v s <> Ok tt tr s') /\
  (closed s = true -> p < length (heap s) ->
   forall fuel ctx v, Write fuel p ctx v s = OutOfFuel).
Proof.
  intros Hpq Hcycle.
  assert (forall fuel ctx v tr s', Write fuel p ctx v s <> Ok tt tr s') as Hnever.
  { intros fuel ctx v tr s' Hw. apply Write_Ok_bounded in Hw.
    destruct Hpq as [->|Hpq].
    - by rewrite (cycle_unbounded _ _ Hcycle) in Hw.
    - destruct (bounded_reaches _ _ _ Hpq _ Hw) as (m & _ & Hq).
      by rewrite (cycle_unbounded _ _ Hcycle) in Hq. }
  split; [exact Hnever|].
  intros Hc Hp fuel ctx v.
  destruct (Write fuel p ctx v s) as [[] tr s'|s'|] eqn:Hw; [| |done].
  - by apply Hnever in Hw.
  - by apply Write_no_panic in Hw.
Qed.

Lemma Write_on_cycle_never_returns_witness :
  reaches knot 0 0 /\
  forall fuel, Write fuel 0 (mkContxt Background 0) (VInt 1) knot = OutOfFuel.
Proof.
  assert (reaches knot 0 0) as Hcycle.
  { apply reaches_sub. apply list_elem_of_here. }
  split; [exact Hcycle|].
  intros fuel.
  apply (proj2 (Write_on_cycle_never_returns knot 0 0 (or_introl eq_refl) Hcycle));
    [reflexivity|simpl; lia].
Defined.

Lemma relayed_inner c0 v q inner :
  fold_right and True (map (relayed c0 v q) inner) <->
  Forall (relayed c0 v q) inner.
Proof.
  induction inner as [|c inner IH]; cbn [map fold_right].
  - split; [constructor|done].
  - rewrite Forall_cons. by rewrite IH.
Qed.

(** The calls of a loop that returned all have a property that the calls
    of each round have. *)
Lemma forM__Forall_inv {A} (body : A -> M unit) (P : call -> Prop)
    (l : list A) :
  (forall x s0 tr0 s1, x ∈ l -> body x s0 = Ok tt tr0 s1 -> Forall P tr0) ->
  forall s tr s', forM_ body l s = Ok tt tr s' -> Forall P tr.
Proof.
  induction l as [|x l IH]; intros Hbody s tr s'; cbn [forM_].
  - intros (_ & -> & _)%ret_inv. constructor.
  - intros ([] & tr1 & s1 & tr2 & Hx & Hl & ->)%bind_inv.
    apply Forall_app. split.
    + eapply Hbody; [by left|exact Hx].
    + eapply IH; [|exact Hl]. intros y s0 tr0 s2 Hy. apply Hbody. by right.
Qed.

Lemma Write_relayed fuel : forall p ctx v s tr s',
  Write fuel p ctx v s = Ok tt tr s' -> Forall (relayed (Ctx ctx) v p) tr.
Proof.
  induction fuel as [|fuel IH]; intros p ctx v s tr s' Hw; [done|].
  destruct (Write_valid _ _ _ _ _ _ _ Hw) as [node Hp].
  rewrite (Write_unfold _ _ _ _ _ _ Hp) in Hw.
  eapply forM__Forall_inv; [|exact Hw].
  intros q s0 tr0 s1 _ (inner & Hq & ->)%inside_inv.
  constructor; [|constructor]. cbn [relayed Ctx RW].
  split; [done|]. split; [done|]. split; [done|].
  apply relayed_inner. by apply IH in Hq.
Qed.

(** X2: in the whole fan-out of a [Write(ctx, v)] on [p] that returns,
    every call, at every depth, is a [Write] that carries the very value
    [v] and the carrier of [ctx], and the surface of its context is the
    node that made the call ([p] for the calls at the top). *)
Theorem Write_relays_value_and_carrier fuel p ctx v s tr s' :
  Write fuel p ctx v s = Ok tt tr s' ->
  Forall (relayed (Ctx ctx) v p) tr.
Proof. apply Write_relayed. Qed.

Lemma Write_relays_value_and_carrier_witness :
  exists tr,
    Write 3 0 (mkContxt (Carrier 7) 9) (VError "boom") fan = Ok tt tr fan /\
    Forall (relayed (Carrier 7) (VError "boom") 0) tr.
Proof.
  eexists. split; [reflexivity|].
  apply (Write_relays_value_and_carrier 3 0 (mkContxt (Carrier 7) 9)
           (VError "boom") fan _ fan).
  reflexivity.
Defined.

(** ** Handlers and propagation *)

(** A calm handler body runs to its end and invokes no handler. *)
Lemma run_calm_quiet fuel cmds s :
  forallb (calm fuel s) cmds = true ->
  exists tr,
    forM_ (perform (Read fuel) (Write fuel) (WriteEvery fuel)) cmds s
      = Ok tt tr s /\
    top <$> tr = cmd_entry <$> cmds /\
    Forall (fun e => is_handler_call e = false) (all_entries tr).
Proof.
  intros Hcalm. rewrite forallb_forall in Hcalm.
  apply forM__calls.
  intros c Hc%list_elem_of_In%Hcalm.
  destruct c; cbn [perform cmd_entry calm] in *; [| |done| |done].
  - destruct (Write_total fuel target m v s Hc) as (inner & Hw & _ & Hall).
    exists inner. unfold inside. rewrite Hw. split; [done|].
    constructor; [done|].
    eapply Forall_impl; [exact Hall|]. apply is_write_not_handler.
  - destruct (WriteEvery_total fuel target m v finder s Hc)
      as (inner & Hw & _ & Hall).
    exists inner. unfold inside. rewrite Hw. split; [done|].
    constructor; [done|].
    eapply Forall_impl; [exact Hall|]. apply is_write_not_handler.
  - exists []. split; [done|]. by repeat constructor.
Qed.

(** X3: reading a value on a synchronous node whose handler body only
    writes (into acyclic parts of the graph) and notes runs exactly one
    handler, the node's own: whatever the body forwards travels through
    the [Write] entry points of the subscribers, and no handler of any
    subscriber, at any depth, is invoked by the propagation. *)
Theorem propagation_runs_no_handler fuel p node v ctxs s :
  heap s !! p = Some node ->
  async node = false ->
  forallb (calm fuel s)
          (op node (read_ctx p ctxs) (fst (dispatch v)) (snd (dispatch v)))
    = true ->
  exists inner,
    Read (S fuel) p v ctxs s =
      Ok tt [Call (EOp p (read_ctx p ctxs) (fst (dispatch v)) (snd (dispatch v)))
                  inner] s /\
    Forall (fun e => is_handler_call e = false) (all_entries inner).
Proof.
  intros Hp Hsync Hcalm.
  destruct (run_calm_quiet _ _ _ Hcalm) as (inner & Hrun & _ & Hquiet).
  exists inner. split; [|done].
  rewrite (Read_sync_unfold _ _ _ _ _ _ Hp Hsync). unfold inside.
  by rewrite Hrun.
Qed.

Lemma propagation_runs_no_handler_witness :
  exists inner,
    Read 3 0 (VInt 42) [] duo =
      Ok tt [Call (EOp 0 (mkContxt Background 0) None (VInt 42)) inner] duo /\
    Forall (fun e => is_handler_call e = false) (all_entries inner).
Proof.
  apply (propagation_runs_no_handler 2 0 (node_of 0 relay [1]) (VInt 42) [] duo);
    reflexivity.
Defined.



(** X5: a synchronous node whose handler is [WrapData dh] (what [DSync],
    [SignalD] and the [DataHandler] case of [Signal] build) passes errors
    on untouched: reading an error [e] does not run [dh] but calls the
    node's own [Write] with [e], which hands [e] to every subscriber in
    registration order; reading anything else runs the body of [dh] on
    the payload and nothing more. *)
Theorem WrapData_passes_errors_on (dh : DataHandler) n node fuel ctxs s :
  heap s !! n = Some node ->
  op node = WrapData dh ->
  async node = false ->
  bounded_below fuel s n = true ->
  (forall e, exists inner,
     Read (S fuel) n (VError e) ctxs s =
       Ok tt [Call (EOp n (read_ctx n ctxs) (Some e) VNil)
                [Call (EWrite n (read_ctx n ctxs) (VError e)) inner]] s /\
     top <$> inner =
       (fun q => EWrite q (read_ctx n ctxs) (VError e)) <$> subs node /\
     Forall (fun e' => is_handler_call e' = false) (all_entries inner)) /\
  (forall v, as_error v = None ->
     Read (S fuel) n v ctxs s =
     inside (EOp n (read_ctx n ctxs) None v)
            (forM_ (perform (Read fuel) (Write fuel) (WriteEvery fuel))
                   (dh (read_ctx n ctxs) v)) s).
Proof.
  intros Hn Hop Hsync Hb. split.
  - intros e.
    destruct (Write_total fuel n (read_ctx n ctxs) (VError e) s Hb)
      as (inner & Hw & Htop & Hall).
    exists inner. split; [|split].
    + rewrite (Read_sync_unfold _ _ _ _ _ _ Hn Hsync).
      unfold dispatch. cbn [as_error fst snd]. rewrite Hop.
      cbn [WrapData forM_ perform]. unfold inside, bind, ret.
      match goal with
      | |- context [Write fuel ?t ?c (VError e) s] =>
          replace (Write fuel t c (VError e) s) with (@Ok unit tt inner s)
            by (symmetry; exact Hw)
      end.
      reflexivity.
    + rewrite Htop. unfold subscribers. by rewrite Hn.
    + eapply Forall_impl; [exact Hall|]. apply is_write_not_handler.
  - intros v Hv. rewrite (Read_sync_unfold _ _ _ _ _ _ Hn Hsync).
    unfold dispatch. rewrite Hv, Hop. reflexivity.
Qed.

Lemma WrapData_passes_errors_on_witness :
  Read 3 0 (VError "bad") [] sieve =
    Ok tt [Call (EOp 0 (mkContxt Background 0) (Some "bad") VNil)
             [Call (EWrite 0 (mkContxt Background 0) (VError "bad"))
                [Call (EWrite 1 (mkContxt Background 0) (VError "bad")) [];
                 Call (EWrite 2 (mkContxt Background 0) (VError "bad")) []]]]
       sieve /\
  Read 3 0 (VInt 9) [] sieve =
    Ok tt [Call (EOp 0 (mkContxt Background 0) None (VInt 9))
             [Call (ENote 9) []]] sieve.
Proof.
  destruct (WrapData_passes_errors_on tally 0
              (node_of 0 (WrapData tally) [1; 2]) 2 [] sieve)
    as [_ Hdata]; [reflexivity..|].
  split; [reflexivity|].
  rewrite (Hdata (VInt 9)) by reflexivity. reflexivity.
Defined.

(** ** Registration, continued *)

Section RegistrationMore.
Context `{R : Reflection}.

(** X6: a node that a registration method has returned is written to
    from then on: after any further method calls, every [Write] on the
    receiver that returns has called [Write] on the subscribers the
    receiver had before the registration, in their order, then on the new
    node, and then on the nodes that the later calls registered on the
    receiver, in the order of those calls. *)
Theorem registered_node_is_written_to
    fuel0 c p s n tr s1 fuel1 cs rs tr1 s2 fuel ctx v tr' s3 :
  registers c = Some p ->
  invoke fuel0 c s = Ok (Some n) tr s1 ->
  session fuel1 cs s1 = Ok rs tr1 s2 ->
  Write fuel p ctx v s2 = Ok tt tr' s3 ->
  top <$> tr' =
    (fun q => EWrite q (mkContxt (Ctx ctx) p) v) <$>
      (subscribers s p ++ [n] ++ registered_on p cs rs).
Proof.
  intros Hc Hreg Hcs Hw. apply Write_sound in Hw as [-> _].
  apply session_sound in Hcs as (_ & -> & _).
  apply invoke_sound in Hreg as [-> _]. rewrite Hc.
  case_decide; [|done]. by rewrite <- app_assoc.
Qed.

End RegistrationMore.

Lemma registered_node_is_written_to_witness :
  exists s1 s2 tr1 tr',
    @invoke go_reflection 0 (ApiSignalD 0 tally) duo = Ok (Some 2) [] s1 /\
    @session go_reflection 3 [ApiRead 0 (VInt 1) []; ApiAsyncSignal 0 (ArgHandler recorder);
               ApiSignal 1 (ArgNode 2)] s1
      = Ok [None; Some 3; Some 2] tr1 s2 /\
    Write 3 0 (mkContxt Background 0) (VInt 3) s2 = Ok tt tr' s2 /\
    top <$> tr' = [EWrite 1 (mkContxt Background 0) (VInt 3);
                   EWrite 2 (mkContxt Background 0) (VInt 3);
                   EWrite 3 (mkContxt Background 0) (VInt 3)].
Proof.
  eexists _, _, _, _. split; [reflexivity|].
  split; [vm_compute; reflexivity|]. split; [vm_compute; reflexivity|].
  eapply (@registered_node_is_written_to go_reflection 0 (ApiSignalD 0 tally)
            0 duo 2 [] _ 3
            [ApiRead 0 (VInt 1) []; ApiAsyncSignal 0 (ArgHandler recorder);
             ApiSignal 1 (ArgNode 2)]
            [None; Some 3; Some 2] _ _ 3 (mkContxt Background 0) (VInt 3)).
  - reflexivity.
  - reflexivity.
  - vm_compute. reflexivity.
  - vm_compute. reflexivity.
Defined.

Section AdapterFacts.
Context `{R : Reflection}.

Lemma register_accepts b p self x a0 a1 data s :
  heap s !! p = Some self ->
  IsFuncType x = true ->
  GetFuncArgumentsType x = [a0; a1; data] ->
  fst (CanSetForType ctxType a0) = true ->
  fst (CanSetForType errorType a1) = true ->
  register (fun h => alloc h b) p (ArgOther x) s =
  Ok (Some (length (heap s)))
     [Call (EPrintf ("Calling sync default" +:+ newline)) []]
     (mkState (<[p := mkPub (uuid self) (op self) (root self) (async self)
                            (subs self ++ [length (heap s)])]>
                 (heap s ++ [mkPub (uuids s) (reflected x data) None b []]))
              (S (uuids s))).
Proof.
  intros Hp Hf Hargs H0 H1.
  unfold register. cbn [resolve].
  unfold bind, emit, ret, index_at, panic, alloc, subscribe.
  rewrite Hf, Hargs. simpl. rewrite H0. simpl. rewrite H1. simpl.
  by rewrite (lookup_app_l_Some _ _ _ _ Hp).
Qed.


(** ** The six registration methods *)

Lemma accepted_spec x :
  match accepted x with
  | Some data =>
      exists a0 a1,
        IsFuncType x = true /\ GetFuncArgumentsType x = [a0; a1; data] /\
        fst (CanSetForType ctxType a0) = true /\
        fst (CanSetForType errorType a1) = true
  | None => rejected x
  end.
Proof.
  unfold accepted, rejected.
  destruct (IsFuncType x) eqn:Hf; [|by left].
  destruct (GetFuncArgumentsType x) as [|a0 [|a1 [|a2 [|a3 l]]]] eqn:Hargs;
    try (right; left; simpl; lia).
  destruct (CanSetForType ctxType a0) as [c0 ?] eqn:H0; destruct c0; simpl.
  2:{ right. right. left. exists a0. by rewrite H0. }
  destruct (CanSetForType errorType a1) as [c1 ?] eqn:H1; destruct c1; simpl.
  2:{ right. right. right. exists a1. by rewrite H1. }
  exists a0, a1. by rewrite H0, H1.
Qed.

Lemma rejected_not_accepted x : rejected x -> accepted x = None.
Proof.
  intros Hrej. pose proof (accepted_spec x) as Hacc.
  destruct (accepted x) as [data|]; [|done].
  destruct Hacc as (a0 & a1 & Hf & Hargs & H0 & H1).
  destruct Hrej as [?|[Hlen|[(a & Ha & Hno)|(a & Ha & Hno)]]].
  - congruence.
  - by rewrite Hargs in Hlen.
  - rewrite Hargs in Ha. simpl in Ha. congruence.
  - rewrite Hargs in Ha. simpl in Ha. congruence.
Qed.

(** On an existing receiver a registration returns: with the node it was
    given, with a node it has built from the handler it was given, or with
    nil when the adapter turns the argument down. *)
Lemma register_total b p self a s :
  heap s !! p = Some self ->
  exists r tr s',
    register (fun h => alloc h b) p a s = Ok r tr s' /\
    match offer_of b a with
    | OfferNode n => r = Some n
    | OfferNew h b' =>
        r = Some (length (heap s)) /\
        heap s' !! length (heap s) = Some (mkPub (uuids s) h None b' [])
    | OfferNothing => r = None
    end.
Proof.
  intros Hp. pose proof (lookup_lt_Some _ _ _ Hp) as Hlt.
  assert (forall h,
    exists r tr s',
      (let* r := (let* n := alloc h b in ret (Some n)) in
       match r with
       | None => ret None
       | Some n => subscribe p n ;; ret (Some n)
       end) s = Ok r tr s' /\
      r = Some (length (heap s)) /\
      heap s' !! length (heap s) = Some (mkPub (uuids s) h None b [])) as Hnew.
  { intros h. eexists _, _, _. split.
    - unfold bind, ret, alloc, subscribe. cbn.
      rewrite (lookup_app_l_Some _ _ _ _ Hp). reflexivity.
    - split; [done|]. cbn [heap].
      rewrite list_lookup_insert_ne by lia.
      rewrite lookup_app_r by lia. by rewrite Nat.sub_diag. }
  destruct a as [n|h|dh|dh|x]; cbn [offer_of].
  - eexists _, _, _. split; [|done].
    unfold register, resolve, bind, ret, subscribe. rewrite Hp. reflexivity.
  - apply Hnew.
  - apply (Hnew (WrapError dh)).
  - apply (Hnew (WrapData dh)).
  - pose proof (accepted_spec x) as Hacc.
    destruct (accepted x) as [data|].
    + destruct Hacc as (a0 & a1 & Hf & Hargs & H0 & H1).
      eexists _, _, _. split.
      * by apply (register_accepts b p self x a0 a1 data s).
      * split; [done|]. cbn [heap].
        rewrite list_lookup_insert_ne by lia.
        rewrite lookup_app_r by lia. by rewrite Nat.sub_diag.
    + eexists _, _, _. split; [|done].
      unfold register.
      by rewrite (bind_Ok _ _ _ _ _ _ (resolve_rejected _ x s Hacc)).
Qed.

(** C8: registration is append-only.  Each of the six registration
    methods ([Signal], [AsyncSignal], [SignalD], [AsyncSignalD], [SignalE],
    [AsyncSignalE]), called on an existing receiver, returns: with the node
    it was given, or with a fresh node built from the handler it was given
    (synchronous or asynchronous after the method, without subscribers of
    its own), and in both cases that node is appended, last, to the
    subscriber list of the receiver and to no other list; only [Signal]
    and [AsyncSignal] on an argument that the structural adapter turns
    down return nil, and then the state is as it was.  Over any sequence
    of method calls the subscriber list of every node [q] is the list
    before the calls followed by exactly the nodes that the registration
    calls made on [q] returned, in the order of the calls: [Read], [Write],
    [WriteEvery] and [UUID] add nothing (a sequence without registration
    calls leaves the whole state as it was), and no method removes or
    reorders an entry. *)
Theorem subscribers_only_grow :
  (forall c, registers c <> None ->
     (offered c = OfferNothing <->
      exists p x, (c = ApiSignal p (ArgOther x) \/
                   c = ApiAsyncSignal p (ArgOther x)) /\ rejected x)) /\
  (forall fuel c s p self,
     registers c = Some p -> heap s !! p = Some self ->
     exists r tr s',
       invoke fuel c s = Ok r tr s' /\
       match offered c with
       | OfferNode n => r = Some n
       | OfferNew h b =>
           r = Some (length (heap s)) /\
           heap s' !! length (heap s) = Some (mkPub (uuids s) h None b [])
       | OfferNothing => r = None /\ s' = s
       end /\
       forall q, subscribers s' q =
                 subscribers s q ++
                 match r with
                 | Some n => if decide (q = p) then [n] else []
                 | None => []
                 end) /\
  (forall fuel cs s rs tr s',
     session fuel cs s = Ok rs tr s' ->
     length rs = length cs /\
     (forall q, subscribers s' q = subscribers s q ++ registered_on q cs rs) /\
     (forall q, subscribers s q `prefix_of` subscribers s' q) /\
     (Forall (fun c => registers c = None) cs -> s' = s)).
Proof.
  split; [|split].
  - intros c Hc.
    assert (forall (b : bool) p a,
              (c = ApiSignal p a \/ c = ApiAsyncSignal p a) ->
              offer_of b a = OfferNothing <->
              exists p x, (c = ApiSignal p (ArgOther x) \/
                           c = ApiAsyncSignal p (ArgOther x)) /\ rejected x)
      as Harg.
    { intros b p a Hca. destruct a as [n|h|dh|dh|x]; cbn [offer_of];
        try (split; [done|];
             intros (p' & x & Hx & _); destruct Hca, Hx; congruence).
      pose proof (accepted_spec x) as Hacc. split.
      - destruct (accepted x); [done|]. intros _. by exists p, x.
      - intros (p' & x' & Hx & Hrej).
        assert (x' = x) as -> by (destruct Hca, Hx; congruence).
        by rewrite (rejected_not_accepted x Hrej). }
    destruct c; cbn [registers offered] in *; try done;
      try (by eapply Harg; eauto);
      split; try done; intros (p' & x & [?|?] & _); done.
  - intros fuel c s p self Hc Hp.
    assert (forall (b : bool) a,
              invoke fuel c = register (fun h => alloc h b) p a ->
              offered c = offer_of b a ->
              exists r tr s',
                invoke fuel c s = Ok r tr s' /\
                match offered c with
                | OfferNode n => r = Some n
                | OfferNew h b =>
                    r = Some (length (heap s)) /\
                    heap s' !! length (heap s) =
                      Some (mkPub (uuids s) h None b [])
                | OfferNothing => r = None /\ s' = s
                end /\
                forall q, subscribers s' q =
                          subscribers s q ++
                          match r with
                          | Some n => if decide (q = p) then [n] else []
                          | None => []
                          end) as Hreg.
    { intros b a -> ->.
      destruct (register_total b p self a s Hp) as (r & tr & s' & Hrun & Hoff).
      pose proof (register_sound b p a s r tr s' Hrun) as [Hsubs Hnone].
      exists r, tr, s'. split; [done|]. split; [|done].
      destruct (offer_of b a); [done..|]. split; [done|]. by apply Hnone. }
    destruct c; cbn [registers] in Hc; try done;
      injection Hc as ->.
    + by apply (Hreg false a).
    + by apply (Hreg true a).
    + by apply (Hreg false (ArgHandler (WrapData dh))).
    + by apply (Hreg true (ArgHandler (WrapData dh))).
    + by apply (Hreg false (ArgHandler (WrapError dh))).
    + by apply (Hreg true (ArgHandler (WrapError dh))).
  - intros fuel cs s rs tr s'. apply session_sound.
Qed.

End AdapterFacts.

Lemma subscribers_only_grow_witness :
  (exists rs tr s',
     @session go_reflection 3 sample_session three_nodes = Ok rs tr s' /\
     rs = [Some 2; None; Some 3; None; Some 4; None; Some 5; Some 6; None;
           Some 0; Some 7] /\
     subscribers s' 0 = [2; 3] /\
     subscribers s' 1 = [4; 5; 0] /\
     subscribers s' 2 = [6; 7] /\
     forall q, subscribers three_nodes q `prefix_of` subscribers s' q) /\
  (exists tr s',
     @invoke go_reflection 0 (ApiAsyncSignalE 1 on_clear) three_nodes
       = Ok (Some 3) tr s' /\
     heap s' !! 3 = Some (mkPub 3 (WrapError on_clear) None true []) /\
     subscribers s' 1 = [3] /\ subscribers s' 0 = []).
Proof.
  split.
  - eexists _, _, _. split; [vm_compute; reflexivity|].
    split; [reflexivity|]. split; [reflexivity|]. split; [reflexivity|].
    split; [reflexivity|].
    eapply (fun H => proj1 (proj2 (proj2
              (proj2 (proj2 (@subscribers_only_grow go_reflection))
                 3 sample_session three_nodes _ _ _ H)))).
    vm_compute. reflexivity.
  - destruct (proj1 (proj2 (@subscribers_only_grow go_reflection))
                0 (ApiAsyncSignalE 1 on_clear) three_nodes 1
                (node_of 1 relay []) eq_refl eq_refl)
      as (r & tr & s' & Hrun & [-> Hnew] & Hsubs).
    exists tr, s'. split; [exact Hrun|]. split; [exact Hnew|].
    split; [exact (Hsubs 1)|exact (Hsubs 0)].
Defined.

(** ** The adapted closure *)

Section ClosureFacts.
Context `{R : Reflection}.

(** X18: the closure that the structural adapter builds around a callable
    never runs the callable.  Handed an error it calls [tm.Call] with the
    zero Value [reflect.ValueOf(nil)] as third argument, which panics;
    handed a payload it returns without a call when [CanSetFor] turns the
    payload down or [Convert] fails, and otherwise calls [tm.Call] with the
    zero Value of the nil error as second argument, which panics.  So
    [Read] on a synchronous adapted node panics on every error, and on
    every other value either panics or returns after the one call of the
    closure, in which nothing was called. *)
Theorem adapted_closure_never_calls x data :
  (forall m e val, reflected x data m (Some e) val = [CmdPanic]) /\
  (forall m val,
     reflected x data m None val = [] \/
     reflected x data m None val = [CmdPanic]) /\
  (forall m val,
     reflected x data m None val = [] <->
     (exists convert, CanSetFor data (ValueOf val) = Some (false, convert)) \/
     (CanSetFor data (ValueOf val) = Some (true, true) /\
      Convert data (ValueOf val) = None)) /\
  (forall fuel p node e ctxs s,
     heap s !! p = Some node -> async node = false ->
     op node = reflected x data ->
     Read (S fuel) p (VError e) ctxs s = Panic s) /\
  (forall fuel p node v ctxs s,
     heap s !! p = Some node -> async node = false ->
     op node = reflected x data -> as_error v = None ->
     Read (S fuel) p v ctxs s = Panic s \/
     Read (S fuel) p v ctxs s =
       Ok tt [Call (EOp p (read_ctx p ctxs) None v) []] s).
Proof.
  assert (forall m val,
            reflected x data m None val = [] \/
            reflected x data m None val = [CmdPanic]) as Htwo.
  { intros m val. unfold reflected. cbn [ValueOfError].
    destruct (CanSetFor data (ValueOf val)) as [[ok convert]|]; [|by right].
    destruct ok, convert; cbn [negb]; try (by left); try (by right).
    destruct (Convert data (ValueOf val)); [by right|by left]. }
  split; [done|]. split; [exact Htwo|]. split; [|split].
  - intros m val. unfold reflected. cbn [ValueOfError].
    destruct (CanSetFor data (ValueOf val)) as [[ok convert]|] eqn:Hcan.
    + destruct ok, convert; cbn [negb].
      * destruct (Convert data (ValueOf val)) eqn:Hconv.
        -- split; [done|]. intros [(c & [=])|[_ [=]]].
        -- split; [|done]. intros _. by right.
      * split; [done|]. intros [(c & [=])|[[=] _]].
      * split; [|done]. intros _. left. by exists true.
      * split; [|done]. intros _. left. by exists false.
    + split; [done|]. intros [(c & [=])|[[=] _]].
  - intros fuel p node e ctxs s Hp Hsync Hop.
    rewrite (Read_sync_unfold fuel p (VError e) ctxs s node Hp Hsync).
    unfold dispatch. cbn [as_error fst snd]. by rewrite Hop.
  - intros fuel p node v ctxs s Hp Hsync Hop Hv.
    rewrite (Read_sync_unfold fuel p v ctxs s node Hp Hsync).
    unfold dispatch. rewrite Hv. cbn [fst snd]. rewrite Hop.
    destruct (Htwo (read_ctx p ctxs) v) as [-> | ->]; [by right|by left].
Qed.

End ClosureFacts.

Lemma adapted_closure_never_calls_witness :
  exists tr s,
    @Signal go_reflection 0
       (@ArgOther go_reflection (GFunc [TCtx; TError; TInt] recorder))
       three_nodes
      = Ok (Some 3) tr s /\
    Read 3 3 (VError "bad") [] s = Panic s /\
    Read 3 3 (VInt 5) [] s = Panic s /\
    Read 3 3 (VStr "five") [] s =
      Ok tt [Call (EOp 3 (mkContxt Background 3) None (VStr "five")) []] s.
Proof.
  eexists _, _. split; [vm_compute; reflexivity|]. split.
  - eapply (proj1 (proj2 (proj2 (proj2
              (@adapted_closure_never_calls go_reflection
                 (GFunc [TCtx; TError; TInt] recorder) TInt))))).
    + reflexivity.
    + reflexivity.
    + reflexivity.
  - split; vm_compute; reflexivity.
Defined.

Section BuilderMore.
Context `{R : Reflection}.

(** ** Chain builders, continued *)

Lemma index_at_shift {A} (x : A) (l : list A) (i : nat) s :
  index_at (x :: l) (Z.of_nat (S i)) s = index_at l (Z.of_nat i) s.
Proof.
  unfold index_at.
  destruct (Z.ltb_spec (Z.of_nat (S i)) 0); [lia|].
  destruct (Z.ltb_spec (Z.of_nat i) 0); [lia|].
  by rewrite !Nat2Z.id.
Qed.

(** Past its first pair the loop of [Lift] on [x :: l] is the loop of
    [Lift] on [l]. *)
Lemma Lift_loop_shift (x : ptr) (l : list ptr) :
  forall (positions : list nat) s,
  (forall i, i ∈ positions -> 1 <= i) ->
  forM_ (fun index =>
           if (index <? 1)%Z then ret tt
           else
             let* node := index_at (x :: l) index in
             let* pnode := index_at (x :: l) (index - 1) in
             Signal pnode (ArgNode node) ;; ret tt)
        (Z.of_nat <$> (S <$> positions)) s =
  forM_ (fun index =>
           if (index <? 1)%Z then ret tt
           else
             let* node := index_at l index in
             let* pnode := index_at l (index - 1) in
             Signal pnode (ArgNode node) ;; ret tt)
        (Z.of_nat <$> positions) s.
Proof.
  set (bx := fun index : Z => _). set (bl := fun index : Z => _).
  induction positions as [|i positions IH]; intros s Hpos; [done|].
  rewrite !fmap_cons. cbn [forM_].
  assert (1 <= i) as Hi by (apply Hpos; by left).
  assert (bx (Z.of_nat (S i)) s = bl (Z.of_nat i) s) as Hb.
  { unfold bx, bl.
    destruct (Z.ltb_spec (Z.of_nat (S i)) 1); [lia|].
    destruct (Z.ltb_spec (Z.of_nat i) 1); [lia|].
    unfold bind at 1. unfold bind at 3.
    rewrite index_at_shift.
    destruct (index_at l (Z.of_nat i) s) as [node tr1 s1| |]; [|done..].
    unfold bind at 1. unfold bind at 2.
    replace (Z.of_nat (S i) - 1)%Z with (Z.of_nat (S (i - 1))) by lia.
    replace (Z.of_nat i - 1)%Z with (Z.of_nat (i - 1)) by lia.
    by rewrite index_at_shift. }
  unfold bind. rewrite Hb.
  destruct (bl (Z.of_nat i) s) as [[] tr1 s1| |]; [|done..].
  rewrite IH; [done|]. intros j Hj. apply Hpos. by right.
Qed.

(** X8: [Lift] is chaining: on no node or one node it does nothing (the
    node may even be nil), and [Lift(a, b, rest...)] is [a.Signal(b)]
    followed by [Lift(b, rest...)], with the same result, the same final
    state and the same panic when a node is nil. *)
Theorem Lift_is_chaining :
  (forall s, Lift [] s = Ok tt [] s) /\
  (forall a s, Lift [a] s = Ok tt [] s) /\
  (forall a b rest s,
     Lift (a :: b :: rest) s =
     (Signal a (ArgNode b) ;; Lift (b :: rest)) s).
Proof.
  split; [done|]. split; [done|].
  intros a b rest s. unfold Lift, for_up.
  cbn [length]. rewrite <- !cons_seq, <- !fmap_S_seq, !fmap_cons.
  pose proof (Lift_loop_shift a (b :: rest) (S <$> seq 0 (length rest)))
    as Hshift.
  set (bx := fun index : Z =>
               if (index <? 1)%Z then ret tt
               else
                 let* node := index_at (a :: b :: rest) index in
                 let* pnode := index_at (a :: b :: rest) (index - 1) in
                 Signal pnode (ArgNode node) ;; ret tt) in *.
  set (bl := fun index : Z =>
               if (index <? 1)%Z then ret tt
               else
                 let* node := index_at (b :: rest) index in
                 let* pnode := index_at (b :: rest) (index - 1) in
                 Signal pnode (ArgNode node) ;; ret tt) in *.
  assert (bx (Z.of_nat 1) s =
          match Signal a (ArgNode b) s with
          | Ok _ tr s1 => Ok tt tr s1
          | Panic s1 => Panic s1
          | OutOfFuel => OutOfFuel
          end) as H1.
  { unfold bx. destruct (Z.ltb_spec (Z.of_nat 1) 1); [lia|].
    rewrite (bind_Ok _ _ _ b [] s) by reflexivity.
    rewrite (bind_Ok _ _ _ a [] s) by reflexivity.
    unfold bind, ret.
    destruct (Signal a (ArgNode b) s) as [r tr1 s1| |]; [|done..].
    cbn [app]. by rewrite app_nil_r. }
  cbn [forM_]. unfold bind.
  replace (bx (Z.of_nat 0) s) with (@Ok unit tt [] s) by reflexivity.
  cbv beta iota. rewrite H1.
  destruct (Signal a (ArgNode b) s) as [r tr1 s1| |]; [|done..].
  cbv beta iota.
  replace (bl (Z.of_nat 0) s1) with (@Ok unit tt [] s1) by reflexivity.
  cbv beta iota. rewrite Hshift.
  2:{ intros i (j & -> & _)%list_elem_of_fmap. lia. }
  by destruct (forM_ bl _ s1) as [[] tr2 s2| |].
Qed.

End BuilderMore.


Section BuilderFacts.
Context `{R : Reflection}.

(** The rounds of [DeLift] between the first and the last. *)
Lemma DeLift_loop (rws : list ptr) : forall (positions : list nat) s,
  (forall r, r ∈ rws -> r < length (heap s)) ->
  (forall i, i ∈ positions -> 1 <= i /\ i + 1 < length rws) ->
  exists s',
    forM_ (fun index =>
             if (Z.of_nat (length rws) - 1 <=? index)%Z then ret tt
             else
               let* pnode := index_at rws index in
               let* node := index_at rws (index - 1) in
               Signal pnode (ArgNode node) ;; ret tt)
          (Z.of_nat <$> positions) s = Ok tt [] s' /\
    length (heap s') = length (heap s) /\
    forall q, subscribers s' q =
              subscribers s q ++
              omap (fun i => if decide (rws !! i = Some q)
                             then rws !! (i - 1) else None) positions.
Proof.
  set (body := fun index : Z => _).
  induction positions as [|i positions IH]; intros s Hvalid Hpos.
  - exists s. split; [done|]. split; [done|]. intros q. by rewrite app_nil_r.
  - destruct (Hpos i) as [Hi1 Hi2]; [by left|].
    destruct (lookup_lt_is_Some_2 rws i) as [pnode Hpnode]; [lia|].
    destruct (lookup_lt_is_Some_2 rws (i - 1)) as [node Hnode]; [lia|].
    destruct (lookup_lt_is_Some_2 (heap s) pnode) as [self Hself].
    { apply Hvalid. by eapply list_elem_of_lookup_2. }
    set (s1 := mkState (<[pnode := mkPub (uuid self) (op self) (root self)
                            (async self) (subs self ++ [node])]> (heap s))
                       (uuids s)).
    assert (body (Z.of_nat i) s = Ok tt [] s1) as Hbody.
    { unfold body.
      destruct (Z.leb_spec (Z.of_nat (length rws) - 1) (Z.of_nat i)); [lia|].
      rewrite (bind_Ok _ _ _ _ _ _ (index_at_nat _ _ _ _ Hpnode)).
      replace (Z.of_nat i - 1)%Z with (Z.of_nat (i - 1)) by lia.
      rewrite (bind_Ok _ _ _ _ _ _ (index_at_nat _ _ _ _ Hnode)).
      by rewrite (bind_Ok _ _ _ _ _ _ (Signal_node _ _ _ _ Hself)). }
    destruct (IH s1) as (s' & Hrun & Hlen & Hsubs).
    { intros r Hr. subst s1. cbn [heap]. rewrite length_insert. by apply Hvalid. }
    { intros j Hj. apply Hpos. by right. }
    exists s'. rewrite fmap_cons. cbn [forM_].
    rewrite (bind_Ok _ _ _ _ _ _ Hbody), Hrun. split; [done|]. split.
    + rewrite Hlen. subst s1. cbn [heap]. by rewrite length_insert.
    + intros q. rewrite Hsubs. subst s1.
      rewrite (subscribers_subscribe _ _ _ _ _ Hself), <- app_assoc. f_equal.
      cbn [omap list_omap]. rewrite Hpnode, Hnode.
      repeat case_decide; simplify_eq; done.
Qed.

Lemma forM__app_panic {A} (body : A -> M unit) (l1 l2 : list A) s tr s1 s2 :
  forM_ body l1 s = Ok tt tr s1 ->
  forM_ body l2 s1 = Panic s2 ->
  forM_ body (l1 ++ l2) s = Panic s2.
Proof.
  revert s tr. induction l1 as [|x l1 IH]; intros s tr; cbn [app forM_].
  - intros (_ & _ & ->)%ret_inv. done.
  - intros ([] & tr1 & s3 & tr2 & Hx & Hl & _)%bind_inv Hp.
    rewrite (bind_Ok _ _ _ _ _ _ Hx). by rewrite (IH _ _ Hl Hp).
Qed.

(** X9: on two or more nodes that all exist, [DeLift(nodes...)] never
    returns normally.  Its rounds for the positions [i] from [N-2] down
    to [1] append [nodes[i-1]] to the subscribers of [nodes[i]]; the pair
    of [nodes[N-2]] and [nodes[N-1]] is never registered; and its last
    round, at index [0], reads [nodes[-1]] and panics, leaving the
    registrations made until then in place. *)
Theorem DeLift_registers_then_panics (rws : list ptr) s :
  2 <= length rws ->
  (forall r, r ∈ rws -> r < length (heap s)) ->
  exists s',
    DeLift rws s = Panic s' /\
    forall q, subscribers s' q = subscribers s q ++ delift_targets rws q.
Proof.
  intros Hlen Hvalid. unfold DeLift, for_down, delift_targets.
  destruct (length rws) as [|[|m]] eqn:Hn; [lia|lia|].
  replace (S (S m) - 2) with m by lia.
  rewrite seq_S, reverse_snoc. cbn [seq].
  rewrite reverse_cons, fmap_cons, fmap_app.
  destruct (DeLift_loop rws (reverse (seq 1 m)) s Hvalid)
    as (s' & Hrun & _ & Hsubs).
  { intros i [? ?]%elem_of_reverse%elem_of_seq. lia. }
  rewrite Hn in Hrun.
  exists s'. split; [|exact Hsubs].
  set (body := fun index : Z => _) in *.
  cbn [forM_].
  assert (body (Z.of_nat (0 + S m)) s = Ok tt [] s) as Hfirst.
  { unfold body.
    destruct (Z.leb_spec (Z.of_nat (S (S m)) - 1) (Z.of_nat (0 + S m))); [done|lia]. }
  rewrite (bind_Ok _ _ _ _ _ _ Hfirst).
  erewrite forM__app_panic; [done|exact Hrun|].
  cbn [fmap list_fmap forM_]. unfold bind.
  assert (body (Z.of_nat 0) s' = Panic s') as ->; [|done].
  unfold body.
  destruct (Z.leb_spec (Z.of_nat (S (S m)) - 1) (Z.of_nat 0)); [lia|].
  destruct rws as [|r0 rws]; [done|].
  reflexivity.
Qed.

End BuilderFacts.

Lemma DeLift_registers_then_panics_witness :
  exists s',
    @DeLift go_reflection [0; 1; 2; 1] fan = Panic s' /\
    subscribers s' 0 = [1; 2; 3] /\
    subscribers s' 1 = [3; 0] /\
    subscribers s' 2 = [1] /\
    subscribers s' 3 = [].
Proof.
  destruct (@DeLift_registers_then_panics go_reflection [0; 1; 2; 1] fan)
    as (s' & Hrun & Hsubs).
  { simpl. lia. }
  { intros r Hr. cbn.
    repeat (apply elem_of_cons in Hr as [->|Hr]; [lia|]).
    by apply elem_of_nil in Hr. }
  exists s'. split; [exact Hrun|].
  repeat split; rewrite Hsubs; reflexivity.
Defined.

(** ** What stays the same *)

Lemma grown_from_refl n : grown_from n n.
Proof. by repeat split. Qed.

Lemma extends_refl s : extends s s.
Proof. intros p node Hp. exists node. split; [done|apply grown_from_refl]. Qed.

Lemma extends_trans s1 s2 s3 : extends s1 s2 -> extends s2 s3 -> extends s1 s3.
Proof.
  intros H12 H23 p node Hp.
  destruct (H12 p node Hp) as (node2 & Hp2 & (Hu & Ho & Ha & Hr & Hs)).
  destruct (H23 p node2 Hp2) as (node3 & Hp3 & (Hu' & Ho' & Ha' & Hr' & Hs')).
  exists node3. split; [done|]. unfold grown_from.
  rewrite Hu', Ho', Ha', Hr'. repeat split; try done.
  by etransitivity.
Qed.

Lemma alloc_extends h b s n tr s' : alloc h b s = Ok n tr s' -> extends s s'.
Proof.
  intros [= _ _ <-] p node Hp. exists node.
  split; [by apply lookup_app_l_Some|apply grown_from_refl].
Qed.

Lemma subscribe_extends p n s tr s' :
  subscribe p n s = Ok tt tr s' -> extends s s'.
Proof.
  unfold subscribe. destruct (heap s !! p) as [self|] eqn:Hp; [|done].
  intros [= _ <-] q node Hq. cbn [heap].
  destruct (decide (q = p)) as [->|Hne].
  - rewrite list_lookup_insert_eq by (by eapply lookup_lt_Some).
    eexists. split; [done|]. rewrite Hp in Hq. injection Hq as <-.
    repeat split. by apply prefix_app_r.
  - rewrite list_lookup_insert_ne by done.
    exists node. split; [done|apply grown_from_refl].
Qed.

Section IdentityFacts.
Context `{R : Reflection}.

Lemma resolve_extends b a s r tr s1 :
  resolve (fun h => alloc h b) a s = Ok r tr s1 -> extends s s1.
Proof.
  destruct a as [n|h|dh|dh|x]; cbn [resolve];
    unfold bind, emit, ret, index_at, panic; cbn.
  - intros [= _ _ <-]. apply extends_refl.
  - intros [= _ _ <-]. by eapply (alloc_extends h b s).
  - intros [= _ _ <-]. by eapply (alloc_extends _ b s).
  - intros [= _ _ <-]. by eapply (alloc_extends _ b s).
  - destruct (IsFuncType x);
      destruct (GetFuncArgumentsType x) as [|a0 [|a1 [|a2 [|a3 l]]]];
      simpl; try (intros [= _ _ <-]; apply extends_refl).
    destruct (CanSetForType ctxType a0) as [c0 ?]; destruct c0;
      simpl; try (intros [= _ _ <-]; apply extends_refl).
    destruct (CanSetForType errorType a1) as [c1 ?]; destruct c1;
      simpl; try (intros [= _ _ <-]; apply extends_refl).
    intros [= _ _ <-]. by eapply (alloc_extends _ b s).
Qed.

Lemma register_extends b p a s r tr s' :
  register (fun h => alloc h b) p a s = Ok r tr s' -> extends s s'.
Proof.
  unfold register.
  intros (r1 & tr1 & s1 & tr2 & Hres & Hk & _)%bind_inv.
  apply resolve_extends in Hres. destruct r1 as [n|].
  - apply bind_inv in Hk as ([] & tr3 & s3 & tr4 & Hsub & Hret & _).
    apply ret_inv in Hret as (_ & _ & ->).
    apply subscribe_extends in Hsub. by eapply extends_trans.
  - by apply ret_inv in Hk as (_ & _ & ->).
Qed.

Lemma invoke_extends fuel c s r tr s' :
  invoke fuel c s = Ok r tr s' -> extends s s'.
Proof.
  destruct c; cbn [invoke]; try (by apply register_extends).
  - intros ([] & tr1 & s1 & tr2 & Hop & Hret & _)%bind_inv.
    apply ret_inv in Hret as (_ & _ & ->).
    apply Read_frame in Hop as ->. apply extends_refl.
  - intros ([] & tr1 & s1 & tr2 & Hop & Hret & _)%bind_inv.
    apply ret_inv in Hret as (_ & _ & ->).
    apply Write_frame in Hop as ->. apply extends_refl.
  - intros ([] & tr1 & s1 & tr2 & Hop & Hret & _)%bind_inv.
    apply ret_inv in Hret as (_ & _ & ->).
    apply WriteEvery_frame in Hop as ->. apply extends_refl.
  - intros (u & tr1 & s1 & tr2 & Hop & Hret & _)%bind_inv.
    apply ret_inv in Hret as (_ & _ & ->). unfold UUID in Hop.
    apply bind_inv in Hop as (node & tr3 & s3 & tr4 & Hd & Hret & _).
    apply deref_inv in Hd as (_ & _ & ->).
    apply ret_inv in Hret as (_ & _ & ->). apply extends_refl.
Qed.

Lemma act_extends fuel a s tr s' : act fuel a s = Ok tt tr s' -> extends s s'.
Proof.
  destruct a; cbn [act];
    intros (r & tr1 & s1 & tr2 & Hop & Hret & _)%bind_inv;
    apply ret_inv in Hret as (_ & _ & ->);
    try (by eapply alloc_extends).
  by eapply invoke_extends.
Qed.

(** X10: whatever a program does with nodes, in any order (build nodes
    with the four constructors, register, read, write), a node that
    exists stays where it is and keeps its identifier, its handler, its
    synchronous or asynchronous mode and its root; its subscriber list is
    only ever extended at its end. *)
Theorem nodes_keep_their_identity fuel l s tr s' :
  script fuel l s = Ok tt tr s' ->
  forall p node, heap s !! p = Some node ->
    exists node',
      heap s' !! p = Some node' /\
      uuid node' = uuid node /\ op node' = op node /\
      async node' = async node /\ root node' = root node /\
      subs node `prefix_of` subs node'.
Proof.
  unfold script. revert s tr.
  induction l as [|a l IH]; intros s tr; cbn [forM_].
  - intros (_ & _ & ->)%ret_inv. exact (extends_refl s).
  - intros ([] & tr1 & s1 & tr2 & Ha & Hl & _)%bind_inv.
    apply act_extends in Ha.
    exact (extends_trans s s1 s' Ha (IH _ _ Hl)).
Qed.

End IdentityFacts.

Lemma nodes_keep_their_identity_witness :
  exists tr s',
    @script go_reflection 3 sample_script three_nodes = Ok tt tr s' /\
    length (heap s') = 6 /\
    exists node',
      heap s' !! 0 = Some node' /\
      uuid node' = 0 /\ op node' = relay /\ async node' = false /\
      root node' = None /\ [] `prefix_of` subs node'.
Proof.
  eexists _, _. split; [vm_compute; reflexivity|]. split; [reflexivity|].
  eapply (fun H => @nodes_keep_their_identity go_reflection 3 sample_script
                     three_nodes _ _ H 0 (node_of 0 relay []) eq_refl).
  vm_compute. reflexivity.
Defined.

(** ** WriteEvery against Write *)

Lemma omap_sublist {A B} (f : A -> option B) (l1 l2 : list A) :
  l1 `sublist_of` l2 -> omap f l1 `sublist_of` omap f l2.
Proof.
  induction 1 as [|x l1 l2 _ IH|x l1 l2 _ IH]; cbn [omap list_omap].
  - constructor.
  - destruct (f x); [by constructor|done].
  - destruct (f x); [by constructor|done].
Qed.

Lemma picks_sublist {A} (l : list A) positions :
  positions `sublist_of` seq 0 (length l) -> picks l positions `sublist_of` l.
Proof.
  intros Hsub. rewrite <- (picks_all l) at 2. by apply omap_sublist.
Qed.

Lemma filter_all {A} (P : A -> Prop) `{forall x, Decision (P x)} (l : list A) :
  Forall P l -> filter P l = l.
Proof.
  induction 1 as [|x l Hx _ IH]; [done|].
  by rewrite filter_cons_True, IH.
Qed.

(** X11: [WriteEvery] reaches no subscriber that [Write] does not reach,
    and reaches them in the same order: the calls it makes are calls
    that [Write] makes on the same node with the same value, in the same
    order.  When the finder sends every position of [0..N-1] strictly
    between [0] and [N], the two make the same calls. *)
Theorem WriteEvery_calls_among_those_of_Write
    fuel p ctx v finder s trE s1 fuel' trW s2 :
  WriteEvery fuel p ctx v finder s = Ok tt trE s1 ->
  Write fuel' p ctx v s = Ok tt trW s2 ->
  let f := default defaultFinder finder in
  let n := length (subscribers s p) in
  (top <$> trE) `sublist_of` (top <$> trW) /\
  ((forall i, i < n ->
      (0 < f (Z.of_nat i) (Z.of_nat n) < Z.of_nat n)%Z) ->
   top <$> trE = top <$> trW).
Proof.
  intros [-> _]%WriteEvery_sound [-> _]%Write_sound f n. split.
  - apply fmap_sublist, picks_sublist. unfold forwarded_positions.
    apply sublist_filter.
  - intros Hall. f_equal. unfold forwarded_positions.
    rewrite filter_all; [apply picks_all|].
    apply Forall_forall. intros i [_ Hi]%elem_of_seq. apply Hall. lia.
Qed.

Lemma WriteEvery_calls_among_those_of_Write_witness :
  exists trE trW,
    WriteEvery 3 0 (mkContxt Background 0) (VInt 4) (Some (fun _ _ => 1%Z)) fan
      = Ok tt trE fan /\
    Write 3 0 (mkContxt Background 0) (VInt 4) fan = Ok tt trW fan /\
    (top <$> trE) `sublist_of` (top <$> trW) /\
    top <$> trE = top <$> trW.
Proof.
  eexists _, _. split; [reflexivity|]. split; [reflexivity|].
  destruct (WriteEvery_calls_among_those_of_Write
              3 0 (mkContxt Background 0) (VInt 4) (Some (fun _ _ => 1%Z)) fan
              _ fan 3 _ fan eq_refl eq_refl) as [Hsub Heq].
  split; [exact Hsub|]. apply Heq. intros i Hi. cbn in *. lia.
Defined.

(** * The callers: the tests of the package *)

(** A loop whose rounds each make one known call makes them in order. *)
Lemma forM__map {A} (body : A -> M unit) (g : A -> call) (l : list A) s :
  (forall x, x ∈ l -> body x s = Ok tt [g x] s) ->
  forM_ body l s = Ok tt (g <$> l) s.
Proof.
  induction l as [|x l IH]; intros Hbody; [done|].
  rewrite fmap_cons. cbn [forM_].
  rewrite (bind_Ok _ _ _ _ _ _ (Hbody x (list_elem_of_here _ _))).
  rewrite IH; [done|]. intros y Hy. apply Hbody. by right.
Qed.

Lemma Write_leaf fuel p ctx v s node :
  heap s !! p = Some node -> subs node = [] ->
  Write (S fuel) p ctx v s = Ok tt [] s.
Proof.
  intros Hp Hsubs. rewrite (Write_unfold _ _ _ _ _ _ Hp). by rewrite Hsubs.
Qed.

Lemma count_app tr1 tr2 : count (tr1 ++ tr2) = count tr1 + count tr2.
Proof.
  unfold count. by rewrite all_entries_app, List.filter_app, length_app.
Qed.

(** X12: the assertion of [TestMousePosition] holds for every number of
    reads and from every state: the test returns, its node has run its
    handler once for each of the [n] values read, and the counter stands
    at [n]. *)
Theorem TestMousePosition_counts_every_read fuel n s :
  exists tr,
    TestMousePosition (S (S fuel)) n s =
      Ok tt tr (mkState (heap s ++ [mkPub (uuids s) relay None false []])
                        (S (uuids s))) /\
    count tr = n /\
    top <$> tr =
      (fun i => EOp (length (heap s)) (mkContxt Background (length (heap s)))
                    None (VInts [Z.of_nat i * 3; Z.of_nat i + 1]%Z)) <$> seq 0 n.
Proof.
  set (pos := length (heap s)).
  set (s1 := mkState (heap s ++ [mkPub (uuids s) relay None false []])
                     (S (uuids s))).
  set (c := mkContxt Background pos).
  set (g := fun i : Z =>
              Call (EOp pos c None (VInts [i * 3; i + 1]%Z))
                   [Call (EWrite pos c (VInts [i * 3; i + 1]%Z)) [];
                    Call (ENote 1) []]).
  assert (heap s1 !! pos = Some (mkPub (uuids s) relay None false [])) as Hpos.
  { subst s1 pos. cbn [heap]. by rewrite list_lookup_middle. }
  assert (forall l : list Z,
            forM_ (fun i => Read (S (S fuel)) pos (VInts [i * 3; i + 1]%Z) []) l s1
            = Ok tt (g <$> l) s1) as Hloop.
  { intros l. apply forM__map. intros i _.
    rewrite (Read_sync_unfold _ _ _ _ _ _ Hpos eq_refl).
    cbn [dispatch as_error fst snd op relay read_ctx forM_ perform RW].
    unfold inside, bind, emit, ret.
    by rewrite (Write_leaf _ _ _ _ _ _ Hpos eq_refl). }
  exists (g <$> (Z.of_nat <$> seq 0 n)). split; [|split].
  - unfold TestMousePosition, for_up.
    rewrite (bind_Ok _ _ _ pos [] s1) by reflexivity.
    by rewrite Hloop.
  - assert (forall l : list nat, count (g <$> (Z.of_nat <$> l)) = length l)
      as Hcount.
    { induction l as [|i l IH]; [done|].
      rewrite !fmap_cons. cbn [length]. rewrite <- IH.
      change (g (Z.of_nat i) :: (g <$> (Z.of_nat <$> l)))
        with ([g (Z.of_nat i)] ++ (g <$> (Z.of_nat <$> l))).
      by rewrite count_app. }
    by rewrite Hcount, length_seq.
  - rewrite <- !list_fmap_compose. by apply list_fmap_ext.
Qed.

Section BenchmarkFacts.
Context `{R : Reflection}.

(** X13: in [BenchmarkNodes], from every state and for every number of
    reads, each read of [dude] runs the handler of [dude] once, which
    calls [Write] on [dude], which calls [Write] on [dudette], and that is
    all: the handler of [dudette], with its sleep, is never run, inline or
    on a goroutine. *)
Theorem BenchmarkNodes_never_runs_dudette fuel n s :
  let dude := length (heap s) in
  let dudette := S (length (heap s)) in
  let c := mkContxt Background dude in
  exists s',
    BenchmarkNodes (S (S (S fuel))) n s =
      Ok tt ((fun i : nat =>
                Call (EOp dude c None (VInt (Z.of_nat i)))
                  [Call (EWrite dude c (VInt (Z.of_nat i)))
                     [Call (EWrite dudette c (VInt (Z.of_nat i))) []]])
             <$> seq 0 n) s' /\
    subscribers s' dude = [dudette] /\
    subscribers s' dudette = [].
Proof.
  intros dude dudette c.
  set (h1 := WrapData (fun r data => [CmdWrite (RW r) r data])).
  set (h2 := WrapData (fun r data => [CmdNote 1000000; CmdWrite (RW r) r data])).
  set (s' := mkState (heap s ++ [mkPub (uuids s) h1 None false [dudette];
                                 mkPub (S (uuids s)) h2 None true []])
                     (S (S (uuids s)))).
  assert (heap s' !! dude = Some (mkPub (uuids s) h1 None false [dudette]))
    as Hdude.
  { subst s' dude. cbn [heap]. by rewrite list_lookup_middle. }
  assert (heap s' !! dudette = Some (mkPub (S (uuids s)) h2 None true []))
    as Hdudette.
  { subst s' dudette. cbn [heap].
    rewrite (cons_middle _ (heap s) [_]), app_assoc.
    apply list_lookup_middle. rewrite length_app. cbn. lia. }
  set (g := fun i : Z =>
              Call (EOp dude c None (VInt i))
                [Call (EWrite dude c (VInt i))
                   [Call (EWrite dudette c (VInt i)) []]]).
  assert (forall l : list Z,
            forM_ (fun i => Read (S (S (S fuel))) dude (VInt i) []) l s'
            = Ok tt (g <$> l) s') as Hloop.
  { intros l. apply forM__map. intros i _.
    rewrite (Read_sync_unfold _ _ _ _ _ _ Hdude eq_refl).
    cbn [dispatch as_error fst snd op read_ctx]. subst h1.
    cbn [WrapData forM_ perform RW]. unfold inside, bind, ret.
    rewrite (Write_unfold _ _ _ _ _ _ Hdude).
    cbn [subs forM_ Ctx]. unfold inside, bind, ret.
    by rewrite (Write_leaf _ _ _ _ _ _ Hdudette eq_refl). }
  exists s'. split; [|split].
  - unfold BenchmarkNodes, for_up.
    rewrite (bind_Ok _ _ _ dude []
               (mkState (heap s ++ [mkPub (uuids s) h1 None false []])
                        (S (uuids s)))) by reflexivity.
    rewrite (bind_Ok _ _ _ dudette []
               (mkState ((heap s ++ [mkPub (uuids s) h1 None false []])
                           ++ [mkPub (S (uuids s)) h2 None true []])
                        (S (S (uuids s))))).
    2:{ unfold DASync, alloc. cbn [heap uuids]. f_equal.
        subst dudette. rewrite length_app. cbn. lia. }
    rewrite (bind_Ok _ _ _ (Some dudette) [] s').
    2:{ erewrite Signal_node.
        2:{ cbn [heap]. rewrite lookup_app_l.
            - by apply list_lookup_middle.
            - rewrite length_app. cbn. lia. }
        f_equal. subst s'. cbn [heap uuids uuid op root async subs app]. f_equal.
        rewrite <- app_assoc. cbn [app].
        rewrite insert_app_r_alt by done.
        by rewrite Nat.sub_diag. }
    rewrite Hloop. cbn [app]. by rewrite <- list_fmap_compose.
  - unfold subscribers. by rewrite Hdude.
  - unfold subscribers. by rewrite Hdudette.
Qed.

End BenchmarkFacts.

(** * The console sinks *)

Section ConsoleFacts.
Context `{S : Strconv}.

(** X14: [Stderr.Emit] accepts the entries whose log type is the string
    [ERROR] and no others: for every other entry (one of another type,
    one without a log type, one whose log type is not a string) it writes
    nothing and returns the error [Only Error ID allowed]; for an entry
    of type [ERROR] it returns no error. *)
Theorem Stderr_rejects_all_but_errors (e : Entry) :
  (entry_id e = ERROR <-> snd (Stderr_Emit e) = None) /\
  (entry_id e <> ERROR ->
   Stderr_Emit e = ([], Some "Only Error ID allowed")) /\
  (LogType e = None -> Stderr_Emit e = ([], Some "Only Error ID allowed")) /\
  ((forall sid, LogType e <> Some (AString sid)) ->
   Stderr_Emit e = ([], Some "Only Error ID allowed")).
Proof.
  assert (entry_id e <> ERROR ->
          Stderr_Emit e = ([], Some "Only Error ID allowed")) as Hrej.
  { intros Hne%String.eqb_neq. unfold Stderr_Emit. by rewrite Hne. }
  split; [|split; [exact Hrej|split]].
  - unfold Stderr_Emit. destruct (String.eqb_spec (entry_id e) ERROR); by split.
  - intros HNone. apply Hrej. unfold entry_id. by rewrite HNone.
  - intros Hns. apply Hrej. unfold entry_id.
    destruct (LogType e) as [[]|]; try done. by destruct (Hns bo).
Qed.

Lemma flat_map_concat_fmap {A B} (f : A -> list B) (l : list A) :
  flat_map f l = concat (f <$> l).
Proof.
  induction l as [|x l IH]; [done|]. cbn [flat_map]. by rewrite IH.
Qed.

Lemma field_blocks_printed id (l : list (string * anyval)) :
  flat_map (field_block id) (List.filter (fun kv => negb (blank kv)) l) =
  flat_map (field_block id) l.
Proof.
  induction l as [|kv l IH]; [done|]. cbn [List.filter flat_map].
  destruct (blank kv) eqn:Hb; cbn [negb].
  - unfold field_block at 2. by rewrite Hb.
  - cbn [flat_map]. by rewrite IH.
Qed.

(** X15: on an entry of type [ERROR] the two sinks write the same to
    [os.Stdout], up to the order of the fields, and neither returns an
    error: both write the label [ERROR], the header and the message, then
    one block per field and a closing line break; each call takes the
    fields in the order in which its own [range] visits them, so the
    blocks of the two outputs are the same up to order, and the outputs
    are equal when the two calls visit the fields in the same order. *)
Theorem Stderr_agrees_with_Stdout (e1 e2 : Entry) :
  same_entry e1 e2 ->
  entry_id e1 = ERROR ->
  Stderr_Emit e1 =
    (Tinted FgRed "ERROR"
     :: [Tinted FgCyan "[opening]"; Plain ":"]
     ++ (if String.eqb (Message e1) "" then []
         else [Plain (tab +:+ tab); Plain (Message e1)])
     ++ [Plain newline; Plain (tab +:+ tab)]
     ++ concat (field_block ERROR <$> Fields e1) ++ [Plain newline], None) /\
  Stdout_Emit e2 =
    (Tinted FgRed "ERROR"
     :: [Tinted FgCyan "[opening]"; Plain ":"]
     ++ (if String.eqb (Message e1) "" then []
         else [Plain (tab +:+ tab); Plain (Message e1)])
     ++ [Plain newline; Plain (tab +:+ tab)]
     ++ concat (field_block ERROR <$> Fields e2) ++ [Plain newline], None) /\
  field_block ERROR <$> Fields e1 ≡ₚ field_block ERROR <$> Fields e2 /\
  (Fields e1 = Fields e2 -> Stderr_Emit e1 = Stdout_Emit e2).
Proof.
  intros (Hmsg & Htype & Hfields) Hid.
  assert (entry_id e2 = ERROR) as Hid2.
  { unfold entry_id in *. by rewrite <- Htype. }
  assert (Stderr_Emit e1 =
    (Tinted FgRed "ERROR"
     :: [Tinted FgCyan "[opening]"; Plain ":"]
     ++ (if String.eqb (Message e1) "" then []
         else [Plain (tab +:+ tab); Plain (Message e1)])
     ++ [Plain newline; Plain (tab +:+ tab)]
     ++ concat (field_block ERROR <$> Fields e1) ++ [Plain newline], None))
    as H1.
  { unfold Stderr_Emit, emit_body, printEntryParams. rewrite Hid.
    by rewrite flat_map_concat_fmap. }
  assert (Stdout_Emit e2 =
    (Tinted FgRed "ERROR"
     :: [Tinted FgCyan "[opening]"; Plain ":"]
     ++ (if String.eqb (Message e1) "" then []
         else [Plain (tab +:+ tab); Plain (Message e1)])
     ++ [Plain newline; Plain (tab +:+ tab)]
     ++ concat (field_block ERROR <$> Fields e2) ++ [Plain newline], None))
    as H2.
  { unfold Stdout_Emit, emit_body, printEntryParams. rewrite Hid2, Hmsg.
    by rewrite flat_map_concat_fmap. }
  split; [exact H1|]. split; [exact H2|]. split.
  - by apply fmap_Permutation.
  - intros Heq. rewrite H1, H2. by rewrite Heq.
Qed.

(** X16: fields without a key or without a value leave no trace: what one
    call of [printEntryParams] writes is the opening tabs followed by one
    block for each of the other fields, in the order in which the call
    visits them; two calls on entries of the same log type whose other
    fields agree up to order write the same blocks up to order; an entry
    whose fields are all of this kind prints as an entry without
    fields. *)
Theorem blank_fields_leave_no_trace (e : Entry) :
  printEntryParams e =
    Plain (tab +:+ tab) :: concat (field_block (entry_id e) <$> printed e) /\
  (forall e', LogType e' = LogType e -> printed e' ≡ₚ printed e ->
     printEntryParams e' =
       Plain (tab +:+ tab) :: concat (field_block (entry_id e) <$> printed e') /\
     field_block (entry_id e) <$> printed e' ≡ₚ
       field_block (entry_id e) <$> printed e) /\
  (forallb blank (Fields e) = true ->
   printEntryParams e = [Plain (tab +:+ tab)]).
Proof.
  assert (forall e0 : Entry, printEntryParams e0 =
            Plain (tab +:+ tab)
            :: concat (field_block (entry_id e0) <$> printed e0)) as Hone.
  { intros e0. unfold printEntryParams, printed.
    by rewrite <- flat_map_concat_fmap, field_blocks_printed. }
  split; [apply Hone|]. split.
  - intros e' Htype Hperm.
    assert (entry_id e' = entry_id e) as Hid.
    { unfold entry_id. by rewrite Htype. }
    split; [by rewrite Hone, Hid|]. by apply fmap_Permutation.
  - intros Hall. unfold printEntryParams. f_equal.
    rewrite forallb_forall in Hall.
    induction (Fields e) as [|kv l IH]; [done|]. cbn [flat_map].
    unfold field_block at 1. rewrite (Hall kv) by (by left).
    apply IH. intros x Hx. apply Hall. by right.
Qed.

(** X17: an entry whose log type is none of [INFO], [DEBUG], [ERROR] and
    [NOTICE] (an entry without a log type among them) is printed by
    [Stdout.Emit] under the label [Unknown], with its message when it has
    one, and without any of its fields, whatever they are. *)
Theorem unknown_type_prints_no_field (e : Entry) :
  entry_id e <> INFO -> entry_id e <> DEBUG ->
  entry_id e <> ERROR -> entry_id e <> NOTICE ->
  Stdout_Emit e =
  (Tinted FgWhite "Unknown"
   :: [Tinted FgCyan "[opening]"; Plain ":"]
   ++ (if String.eqb (Message e) "" then []
       else [Plain (tab +:+ tab); Plain (Message e)])
   ++ [Plain newline; Plain (tab +:+ tab); Plain newline],
   None).
Proof.
  intros H1%String.eqb_neq H2%String.eqb_neq H3%String.eqb_neq H4%String.eqb_neq.
  unfold Stdout_Emit, emit_body, printEntryParams.
  rewrite H1, H2, H3, H4.
  assert (flat_map (field_block (entry_id e)) (Fields e) = []) as ->; [|done].
  induction (Fields e) as [|kv l IH]; [done|]. cbn [flat_map].
  rewrite IH, app_nil_r. unfold field_block.
  rewrite H1, H2, H3, H4. by destruct (blank kv).
Qed.

End ConsoleFacts.

Lemma Stderr_agrees_with_Stdout_witness :
  same_entry sample_entry sample_entry_again /\
  @entry_id plain_strconv sample_entry = ERROR /\
  fst (Stderr_Emit sample_entry) =
    [Tinted FgRed "ERROR"; Tinted FgCyan "[opening]"; Plain ":";
     Plain (tab +:+ tab); Plain "disk full"; Plain newline;
     Plain (tab +:+ tab);
     Plain (tab +:+ tab +:+ tab +:+ tab); Plain (newline +:+ tab);
     Tinted FgRed "path"; Tinted FgBlue "="; Tinted FgCyan "/var";
     Plain " "; Plain (tab +:+ newline);
     Plain (tab +:+ tab +:+ tab +:+ tab); Plain (newline +:+ tab);
     Tinted FgRed "code"; Tinted FgBlue "="; Tinted FgCyan "n";
     Plain " "; Plain (tab +:+ newline);
     Plain newline] /\
  fst (Stdout_Emit sample_entry_again) =
    [Tinted FgRed "ERROR"; Tinted FgCyan "[opening]"; Plain ":";
     Plain (tab +:+ tab); Plain "disk full"; Plain newline;
     Plain (tab +:+ tab);
     Plain (tab +:+ tab +:+ tab +:+ tab); Plain (newline +:+ tab);
     Tinted FgRed "code"; Tinted FgBlue "="; Tinted FgCyan "n";
     Plain " "; Plain (tab +:+ newline);
     Plain (tab +:+ tab +:+ tab +:+ tab); Plain (newline +:+ tab);
     Tinted FgRed "path"; Tinted FgBlue "="; Tinted FgCyan "/var";
     Plain " "; Plain (tab +:+ newline);
     Plain newline].
Proof.
  assert (same_entry sample_entry sample_entry_again) as Hsame.
  { split; [reflexivity|]. split; [reflexivity|].
    exact (Permutation_app_comm
             [("", AInt 1); ("path", AString "/var")]
             [("size", ANil); ("code", AInt 3)]). }
  split; [exact Hsame|]. split; [reflexivity|].
  destruct (@Stderr_agrees_with_Stdout plain_strconv sample_entry
              sample_entry_again Hsame eq_refl) as (H1 & H2 & _).
  rewrite H1, H2. split; reflexivity.
Defined.

Lemma unknown_type_prints_no_field_witness :
  @Stdout_Emit plain_strconv odd_entry =
  ([Tinted FgWhite "Unknown"; Tinted FgCyan "[opening]"; Plain ":";
    Plain newline; Plain (tab +:+ tab); Plain newline], None).
Proof.
  apply (@unknown_type_prints_no_field plain_strconv odd_entry); discriminate.
Defined.
